(** * Video repair scripts: the orchestration workflow

    A shallow embedding of the four scripts of the repository
    ([video_repair.py], [1.py], [3.py], [4.py]).  Each script checks that
    the input exists, derives an output path with [os.path], builds an
    argument list for [ffmpeg], runs it as a child process and reports
    the result on the console.

    Python strings are lists of characters; [os.path] is modelled as
    [posixpath] (the POSIX flavour of the module), function by function.
    The file system and the external tool are an explicit [World]. *)

From Stdlib Require Import Ascii String List ZArith Lia Bool.
Import ListNotations.

Open Scope string_scope.
Open Scope list_scope.
Open Scope Z_scope.

(** ** Python strings *)

Definition str := list ascii.

(** String literals are read as lists of characters. *)
Coercion list_ascii_of_string : string >-> list.

Module Py.

Definition len (s : str) : Z := Z.of_nat (length s).

Fixpoint str_eqb (a b : str) : bool :=
  match a, b with
  | [], [] => true
  | x :: a', y :: b' => Ascii.eqb x y && str_eqb a' b'
  | _, _ => false
  end.

(** Truthiness of a string: [if s:] holds for a non-empty string. *)
Definition truthy (s : str) : bool :=
  match s with [] => false | _ :: _ => true end.

(** Slice bounds: a negative bound counts from the end, and every bound
    is clamped to the string. *)
Definition clamp (n i : Z) : Z :=
  if i <? 0 then Z.max 0 (n + i) else Z.min i n.

(** [s[i:j]] *)
Definition slice (s : str) (i j : Z) : str :=
  let lo := clamp (len s) i in
  let hi := clamp (len s) j in
  firstn (Z.to_nat (hi - lo)) (skipn (Z.to_nat lo) s).

(** [s[:j]] and [s[i:]] *)
Definition slice_to (s : str) (j : Z) : str := slice s 0 j.
Definition slice_from (s : str) (i : Z) : str := slice s i (len s).

(** [s.rfind(c)] for a one-character [c]: the highest index of [c] in
    [s], or [-1]. *)
Fixpoint rfind (s : str) (c : ascii) : Z :=
  match s with
  | [] => -1
  | x :: t =>
      let r := rfind t c in
      if 0 <=? r then r + 1 else if Ascii.eqb x c then 0 else -1
  end.

(** [s.startswith(c)] and [s.endswith(c)] for a one-character [c]. *)
Definition startswith (s : str) (c : ascii) : bool :=
  match s with
  | [] => false
  | x :: _ => Ascii.eqb x c
  end.

Definition endswith (s : str) (c : ascii) : bool := startswith (rev s) c.

Fixpoint dropwhile (f : ascii -> bool) (s : str) : str :=
  match s with
  | [] => []
  | x :: t => if f x then dropwhile f t else s
  end.

Definition lstrip_by (f : ascii -> bool) (s : str) : str := dropwhile f s.
Definition rstrip_by (f : ascii -> bool) (s : str) : str :=
  rev (dropwhile f (rev s)).

(** [s.rstrip(chars)] *)
Definition rstrip (s chars : str) : str :=
  rstrip_by (fun c => existsb (Ascii.eqb c) chars) s.

(** The characters [str.isspace] accepts, among the code points below
    256: tab to carriage return, the four separators 28 to 31, space,
    next-line and no-break space. *)
Definition isspace (c : ascii) : bool :=
  let n := nat_of_ascii c in
  ((9 <=? n) && (n <=? 13) || (28 <=? n) && (n <=? 32)
   || (n =? 133) || (n =? 160))%nat.

(** [s.strip()] *)
Definition strip (s : str) : str := lstrip_by isspace (rstrip_by isspace s).

(** [s.replace(old, new)] for a one-character [old]. *)
Definition replace (s : str) (old : ascii) (new : str) : str :=
  flat_map (fun c => if Ascii.eqb c old then new else [c]) s.

End Py.

(** ** [os.path], POSIX flavour *)

Module posixpath.
Import Py.

Definition sep : ascii := "/"%char.
Definition extsep : ascii := "."%char.

Definition basename (p : str) : str :=
  let i := rfind p sep + 1 in
  slice_from p i.

Definition dirname (p : str) : str :=
  let i := rfind p sep + 1 in
  let head := slice_to p i in
  if truthy head && negb (str_eqb head (repeat sep (length head)))
  then rstrip head [sep]
  else head.

(** [join(a, b)] with one component after [a]. *)
Definition join (a b : str) : str :=
  if startswith b sep then b
  else if negb (truthy a) || endswith a sep then a ++ b
  else a ++ [sep] ++ b.

(** The loop of [genericpath._splitext] that skips leading dots: it
    leaves the function with the split as soon as a character of the
    file name before the last dot is not a dot.  [n] counts the
    iterations left, [dotIndex - filenameIndex] at the start. *)
Fixpoint splitext_loop (p : str) (dotIndex filenameIndex : Z) (n : nat)
  : option (str * str) :=
  match n with
  | O => None
  | S n' =>
      if negb (str_eqb (slice p filenameIndex (filenameIndex + 1)) [extsep])
      then Some (slice_to p dotIndex, slice_from p dotIndex)
      else splitext_loop p dotIndex (filenameIndex + 1) n'
  end.

Definition splitext (p : str) : str * str :=
  let sepIndex := rfind p sep in
  let dotIndex := rfind p extsep in
  if dotIndex >? sepIndex then
    let filenameIndex := sepIndex + 1 in
    match splitext_loop p dotIndex filenameIndex
            (Z.to_nat (dotIndex - filenameIndex)) with
    | Some r => r
    | None => (p, slice_to p 0)
    end
  else (p, slice_to p 0).

End posixpath.

Import Py posixpath.

(** ** The world a script runs in *)

(** What a path names: [None] when nothing is there, otherwise the size
    [os.path.getsize] reports. *)
Definition FileSystem := str -> option Z.

Definition path_exists (fs : FileSystem) (p : str) : bool :=
  match fs p with Some _ => true | None => false end.

(** A child process that ran to its end: exit code, what it wrote on
    its two output streams (standard error line by line) and the file
    system it left behind. *)
Record Completed := {
  returncode : Z;
  stdout : str;
  stderr : list str;
  fs_after : FileSystem
}.

(** What launching the program does: the child runs to its end; or the
    launch itself raises an exception; or the child is started and
    reading its output raises an exception (text that cannot be
    decoded) after the lines [relayed] of its standard error were
    read. *)
Inductive Launch :=
| Runs (c : Completed)
| Raises (e : str)
| Breaks (relayed : list str) (e : str).

Record World := {
  fs : FileSystem;               (* the file system when the script starts *)
  on_path : str -> bool;         (* is this program name found on PATH *)
  tool : list str -> Launch      (* what launching the program does *)
}.

(** The result of [subprocess.Popen(command, ...)] followed by reading
    the child to its end, or of [subprocess.run(command, ...)].
    [Interrupted relayed e] is the exception [e] raised while the
    child's output is read, after the lines [relayed] of its standard
    error: the loop of the Popen scripts has written them by then,
    [subprocess.run] raises before 4.py writes anything. *)
Inductive Spawned :=
| Process (c : Completed)
| FileNotFoundError
| Exception (e : str)
| Interrupted (relayed : list str) (e : str).

Definition spawn (w : World) (command : list str) : Spawned :=
  match command with
  | [] => Exception "empty command"
  | program :: _ =>
      if on_path w program then
        match tool w command with
        | Runs c => Process c
        | Raises e => Exception e
        | Breaks relayed e => Interrupted relayed e
        end
      else FileNotFoundError
  end.

(** What a run reports, after the branch of the script that ends it. *)
Inductive Outcome :=
| InputNotFound
| IdenticalPaths
| Succeeded
| Failed (code : Z)
| ToolNotFound
| UnexpectedError (e : str).

(** The groups of lines a script prints. *)
Inductive Message :=
| MsgNotFound (path : str)
| MsgIdentical
| MsgPlan (input output : str)
| MsgSuccess (output : str)
| MsgFailure (code : Z)
| MsgToolNotFound
| MsgUnexpected (e : str)
| MsgTitle
| MsgUsing (path : str)
| MsgNoPath.

(** What a run does, in order. *)
Inductive Event :=
| Print (m : Message)
| Invoke (command : list str)    (* the call of Popen or subprocess.run *)
| WriteStdout (text : str)
| WriteStderr (text : str).

Definition dquote : ascii := ascii_of_nat 34.
Definition squote : ascii := ascii_of_nat 39.

(** The clean-up of a pasted path: [strip()], then [replace] of every
    double quote by nothing, then [replace] of every single quote by
    nothing. *)
Definition strip_and_unquote (s : str) : str :=
  replace (replace (strip s) dquote []) squote [].

(** ** video_repair.py: remux with stream copy *)

Module VideoRepair.

Definition output_path (input_path : str) : str :=
  let directory := dirname input_path in
  let '(filename_without_ext, extension) := splitext (basename input_path) in
  let output_filename : str :=
    filename_without_ext ++ "_noncorrupt" ++ extension in
  join directory output_filename.

Definition command (input_path : str) : list str :=
  [ "ffmpeg" : str;
    "-i" : str; input_path;
    "-c" : str; "copy" : str;
    "-movflags" : str; "faststart" : str;
    "-y" : str;
    output_path input_path ].

Definition repair_video (w : World) (input_path : str)
  : Outcome * list Event :=
  if negb (path_exists (fs w) input_path) then
    (InputNotFound, [Print (MsgNotFound input_path)])
  else
    let plan := [Print (MsgPlan input_path (output_path input_path));
                 Invoke (command input_path)] in
    match spawn w (command input_path) with
    | Process process =>
        let relay := map WriteStderr (stderr process) in
        if returncode process =? 0 then
          (Succeeded,
           plan ++ relay ++ [Print (MsgSuccess (output_path input_path))])
        else
          (Failed (returncode process),
           plan ++ relay ++ [Print (MsgFailure (returncode process))])
    | FileNotFoundError => (ToolNotFound, plan ++ [Print MsgToolNotFound])
    | Exception e => (UnexpectedError e, plan ++ [Print (MsgUnexpected e)])
    | Interrupted relayed e =>
        (UnexpectedError e,
         plan ++ map WriteStderr relayed ++ [Print (MsgUnexpected e)])
    end.

(** The path [main] hands to [repair_video], from the line typed at the
    prompt. *)
Definition input_video_path (typed : str) : str := strip_and_unquote typed.

Definition main (w : World) (typed : str) : option Outcome * list Event :=
  if truthy (input_video_path typed) then
    let '(o, t) := repair_video w (input_video_path typed) in
    (Some o, Print MsgTitle :: t)
  else (None, [Print MsgTitle; Print MsgNoPath]).

End VideoRepair.

(** ** 1.py: full re-encode *)

Module Script1.

Definition output_path (input_path : str) : str :=
  let directory := dirname input_path in
  let '(filename_without_ext, extension) := splitext (basename input_path) in
  let output_filename : str :=
    filename_without_ext ++ "_noncorrupt" ++ extension in
  join directory output_filename.

Definition command (input_path : str) : list str :=
  [ "ffmpeg" : str;
    "-i" : str; input_path;
    "-c:v" : str; "libx264" : str;
    "-preset" : str; "medium" : str;
    "-crf" : str; "23" : str;
    "-c:a" : str; "aac" : str;
    "-b:a" : str; "128k" : str;
    "-movflags" : str; "faststart" : str;
    "-y" : str;
    output_path input_path ].

Definition repair_video (w : World) (input_path : str)
  : Outcome * list Event :=
  if negb (path_exists (fs w) input_path) then
    (InputNotFound, [Print (MsgNotFound input_path)])
  else
    let plan := [Print (MsgPlan input_path (output_path input_path));
                 Invoke (command input_path)] in
    match spawn w (command input_path) with
    | Process process =>
        let relay := map WriteStderr (stderr process) in
        if returncode process =? 0 then
          (Succeeded,
           plan ++ relay ++ [Print (MsgSuccess (output_path input_path))])
        else
          (Failed (returncode process),
           plan ++ relay ++ [Print (MsgFailure (returncode process))])
    | FileNotFoundError => (ToolNotFound, plan ++ [Print MsgToolNotFound])
    | Exception e => (UnexpectedError e, plan ++ [Print (MsgUnexpected e)])
    | Interrupted relayed e =>
        (UnexpectedError e,
         plan ++ map WriteStderr relayed ++ [Print (MsgUnexpected e)])
    end.

(** The path [main] hands to [repair_video], from the line typed at the
    prompt. *)
Definition input_video_path (typed : str) : str := strip_and_unquote typed.

Definition main (w : World) (typed : str) : option Outcome * list Event :=
  if truthy (input_video_path typed) then
    let '(o, t) := repair_video w (input_video_path typed) in
    (Some o, Print MsgTitle :: t)
  else (None, [Print MsgTitle; Print MsgNoPath]).

End Script1.

(** ** 3.py: forced-format re-encode *)

Module Script3.

Definition output_path (input_path : str) : str :=
  let directory := dirname input_path in
  let '(filename_without_ext, extension) := splitext (basename input_path) in
  let output_filename : str := filename_without_ext ++ "_noncorrupt.mp4" in
  join directory output_filename.

Definition command (input_path : str) : list str :=
  [ "ffmpeg" : str;
    "-f" : str; "h264" : str;
    "-err_detect" : str; "aggressive" : str;
    "-i" : str; input_path;
    "-c:v" : str; "libx264" : str;
    "-preset" : str; "medium" : str;
    "-crf" : str; "23" : str;
    "-c:a" : str; "aac" : str;
    "-b:a" : str; "128k" : str;
    "-movflags" : str; "faststart" : str;
    "-y" : str;
    output_path input_path ].

Definition repair_video (w : World) (input_path : str)
  : Outcome * list Event :=
  if negb (path_exists (fs w) input_path) then
    (InputNotFound, [Print (MsgNotFound input_path)])
  else
    let plan := [Print (MsgPlan input_path (output_path input_path));
                 Invoke (command input_path)] in
    match spawn w (command input_path) with
    | Process process =>
        let relay := map WriteStderr (stderr process) in
        if returncode process =? 0 then
          (Succeeded,
           plan ++ relay ++ [Print (MsgSuccess (output_path input_path))])
        else
          (Failed (returncode process),
           plan ++ relay ++ [Print (MsgFailure (returncode process))])
    | FileNotFoundError => (ToolNotFound, plan ++ [Print MsgToolNotFound])
    | Exception e => (UnexpectedError e, plan ++ [Print (MsgUnexpected e)])
    | Interrupted relayed e =>
        (UnexpectedError e,
         plan ++ map WriteStderr relayed ++ [Print (MsgUnexpected e)])
    end.

(** The path [main] hands to [repair_video], from the line typed at the
    prompt. *)
Definition input_video_path (typed : str) : str := strip_and_unquote typed.

Definition main (w : World) (typed : str) : option Outcome * list Event :=
  if truthy (input_video_path typed) then
    let '(o, t) := repair_video w (input_video_path typed) in
    (Some o, Print MsgTitle :: t)
  else (None, [Print MsgTitle; Print MsgNoPath]).

End Script3.

(** ** 4.py: remux with stream copy, checking the output file *)

Module Script4.

Definition output_path (corrupt_path : str) : str :=
  let directory := dirname corrupt_path in
  let '(filename, ext) := splitext (basename corrupt_path) in
  let output_filename : str := filename ++ ".fixed" ++ ext in
  join directory output_filename.

Definition command (corrupt_path : str) : list str :=
  [ "ffmpeg" : str;
    "-i" : str; corrupt_path;
    "-c" : str; "copy" : str;
    output_path corrupt_path ].

(** [os.path.exists(p) and os.path.getsize(p) > 0]; [None] when
    [getsize] raises because nothing is at [p]. *)
Definition exists_and_nonempty (fs : FileSystem) (p : str) : option bool :=
  if path_exists fs p then
    match fs p with
    | Some size => Some (size >? 0)
    | None => None
    end
  else Some false.

Definition repair_video_ffmpeg (w : World) (corrupt_path : str)
  : Outcome * list Event :=
  if negb (path_exists (fs w) corrupt_path) then
    (InputNotFound, [Print (MsgNotFound corrupt_path)])
  else if str_eqb corrupt_path (output_path corrupt_path) then
    (IdenticalPaths, [Print MsgIdentical])
  else
    let plan := [Print (MsgPlan corrupt_path (output_path corrupt_path));
                 Invoke (command corrupt_path)] in
    match spawn w (command corrupt_path) with
    | Process process =>
        let relay := [WriteStdout (stdout process);
                      WriteStderr (concat (stderr process))] in
        if returncode process =? 0 then
          match exists_and_nonempty (fs_after process)
                  (output_path corrupt_path) with
          | Some true =>
              (Succeeded,
               plan ++ relay
                 ++ [Print (MsgSuccess (output_path corrupt_path))])
          | Some false =>
              (Failed (returncode process),
               plan ++ relay ++ [Print (MsgFailure (returncode process))])
          | None =>
              (* getsize raised an OSError for a missing file, which the
                 handler of FileNotFoundError catches *)
              (ToolNotFound, plan ++ relay ++ [Print MsgToolNotFound])
          end
        else
          (Failed (returncode process),
           plan ++ relay ++ [Print (MsgFailure (returncode process))])
    | FileNotFoundError => (ToolNotFound, plan ++ [Print MsgToolNotFound])
    | Exception e => (UnexpectedError e, plan ++ [Print (MsgUnexpected e)])
    | Interrupted _ e =>
        (UnexpectedError e, plan ++ [Print (MsgUnexpected e)])
    end.

(** The path [main] hands to [repair_video_ffmpeg]: the first
    command-line argument when there is one, otherwise the line typed
    at the prompt. *)
Definition corrupt_path (argv : list str) (typed : str) : str :=
  let corrupt_path :=
    match argv with
    | _ :: arg1 :: _ => strip_and_unquote arg1
    | _ => typed
    end in
  strip_and_unquote corrupt_path.

Definition main (w : World) (argv : list str) (typed : str)
  : option Outcome * list Event :=
  let notice :=
    match argv with
    | _ :: arg1 :: _ => [Print (MsgUsing (strip_and_unquote arg1))]
    | _ => []
    end in
  if truthy (corrupt_path argv typed) then
    let '(o, t) := repair_video_ffmpeg w (corrupt_path argv typed) in
    (Some o, Print MsgTitle :: notice ++ t)
  else (None, Print MsgTitle :: notice ++ [Print MsgNoPath]).

End Script4.

(** ** Reading an argument list *)

Fixpoint has_prefix (pre s : str) : bool :=
  match pre, s with
  | [], _ => true
  | x :: pre', y :: s' => Ascii.eqb x y && has_prefix pre' s'
  | _ :: _, [] => false
  end.

(** The options of the tool that set a bitrate: [-b], [-b:v], [-b:a]. *)
Definition is_bitrate_flag (arg : str) : bool := has_prefix "-b" arg.

(** The options of the tool that choose a codec: [-c], [-c:v], [-c:a]
    and their long forms. *)
Definition is_codec_option (arg : str) : bool :=
  str_eqb arg "-c" || has_prefix "-c:" arg
  || str_eqb arg "-codec" || has_prefix "-codec:" arg
  || str_eqb arg "-vcodec" || str_eqb arg "-acodec".

(** Stream-copy directives: a codec option directly followed by
    [copy]. *)
Fixpoint copy_directives (args : list str) : nat :=
  match args with
  | [] => 0%nat
  | a :: rest =>
      ((match rest with
        | b :: _ => if is_codec_option a && str_eqb b "copy" then 1 else 0
        | [] => 0
        end) + copy_directives rest)%nat
  end.

(** The overwrite-without-prompt flag of the tool. *)
Definition overwrite_flag : str := "-y".

(** ** The clean-up of a pasted path, as the specification words it *)

Definition is_quote (c : ascii) : bool :=
  Ascii.eqb c dquote || Ascii.eqb c squote.

(** Surrounding white space and surrounding quote characters stripped,
    and nothing else removed. *)
Definition strip_surrounding (s : str) : str :=
  let edge c := isspace c || is_quote c in
  lstrip_by edge (rstrip_by edge s).

(** What the clean-up of the scripts does to a string [s] to give [p]:
    the white space around [s] goes, and so does every quote character
    of what is left, wherever it stands. *)
Definition cleaned (s p : str) : Prop :=
  exists pre mid suf,
    s = pre ++ mid ++ suf
    /\ Forall (fun c => isspace c = true) pre
    /\ Forall (fun c => isspace c = true) suf
    /\ match mid with [] => True | c :: _ => isspace c = false end
    /\ match rev mid with [] => True | c :: _ => isspace c = false end
    /\ p = filter (fun c => negb (is_quote c)) mid.

(** ** Outcomes and output files *)

(** The file at [out] exists with non-zero size when the child ends. *)
Definition output_written (c : Completed) (out : str) : Prop :=
  exists size, fs_after c out = Some size /\ 0 < size.

(** ** Sample worlds *)

Definition fs_of (files : list (str * Z)) : FileSystem :=
  fun p =>
    match find (fun e => str_eqb (fst e) p) files with
    | Some e => Some (snd e)
    | None => None
    end.

Definition clip : str := "/videos/clip.mp4".

Definition clip_only : FileSystem := fs_of [(clip, 1000)].

(** The tool is installed, exits 0 and writes the output file. *)
Definition done_repaired : Completed :=
  {| returncode := 0;
     stdout := [];
     stderr := ["frame= 1" : str];
     fs_after := fs_of [(clip, 1000);
                        ("/videos/clip_noncorrupt.mp4" : str, 900);
                        ("/videos/clip.fixed.mp4" : str, 900)] |}.

Definition world_repaired : World :=
  {| fs := clip_only;
     on_path := fun _ => true;
     tool := fun _ => Runs done_repaired |}.

(** The tool is installed and exits 0, but leaves no output file. *)
Definition done_nothing : Completed :=
  {| returncode := 0;
     stdout := [];
     stderr := [];
     fs_after := clip_only |}.

Definition world_no_output : World :=
  {| fs := clip_only;
     on_path := fun _ => true;
     tool := fun _ => Runs done_nothing |}.

(** The tool is not installed. *)
Definition world_no_tool : World :=
  {| fs := clip_only;
     on_path := fun _ => false;
     tool := fun _ => Raises "never launched" |}.

(** There is no file at all. *)
Definition world_empty : World :=
  {| fs := fs_of [];
     on_path := fun _ => true;
     tool := fun _ => Runs done_repaired |}.

(** The tool is installed and exits 1, leaving a partial output file. *)
Definition done_failed : Completed :=
  {| returncode := 1;
     stdout := [];
     stderr := ["Invalid data found when processing input" : str];
     fs_after := fs_of [(clip, 1000);
                        ("/videos/clip_noncorrupt.mp4" : str, 48);
                        ("/videos/clip.fixed.mp4" : str, 48)] |}.

Definition world_failing : World :=
  {| fs := clip_only;
     on_path := fun _ => true;
     tool := fun _ => Runs done_failed |}.

(** A path with an apostrophe in a directory name. *)
Definition obrien : str := "/home/o'brien/clip.mp4".

(** That file exists, and the tool is installed. *)
Definition world_obrien : World :=
  {| fs := fs_of [(obrien, 1000)];
     on_path := fun _ => true;
     tool := fun _ => Runs done_repaired |}.

(** A second run of 4.py: the output file of the first run is still
    there, and the tool, not told to overwrite, gives up. *)
Definition clip_and_fixed : FileSystem :=
  fs_of [(clip, 1000); ("/videos/clip.fixed.mp4" : str, 900)].

Definition done_not_overwriting : Completed :=
  {| returncode := 1;
     stdout := [];
     stderr := ["Not overwriting - exiting" : str];
     fs_after := clip_and_fixed |}.

Definition world_rerun : World :=
  {| fs := clip_and_fixed;
     on_path := fun _ => true;
     tool := fun _ => Runs done_not_overwriting |}.


(** ** Reading a trace *)

(** The commands handed to the tool, in order. *)
Definition invocations (t : list Event) : list (list str) :=
  flat_map (fun e => match e with Invoke c => [c] | _ => [] end) t.

(** What was written on the standard error and the standard output of
    the script, write by write. *)
Definition stderr_written (t : list Event) : list str :=
  flat_map (fun e => match e with WriteStderr x => [x] | _ => [] end) t.

Definition stdout_written (t : list Event) : list str :=
  flat_map (fun e => match e with WriteStdout x => [x] | _ => [] end) t.

(** The messages printed, in order. *)
Definition printed (t : list Event) : list Message :=
  flat_map (fun e => match e with Print m => [m] | _ => [] end) t.

(** The messages that go with an outcome of a run on [input] whose
    output path is [output]. *)
Definition banner (input output : str) (o : Outcome) : list Message :=
  match o with
  | InputNotFound => [MsgNotFound input]
  | IdenticalPaths => [MsgIdentical]
  | Succeeded => [MsgPlan input output; MsgSuccess output]
  | Failed code => [MsgPlan input output; MsgFailure code]
  | ToolNotFound => [MsgPlan input output; MsgToolNotFound]
  | UnexpectedError e => [MsgPlan input output; MsgUnexpected e]
  end.

(** * Properties *)

(** ** Python strings *)

Section PyFacts.

Lemma str_eqb_eq (a b : str) : str_eqb a b = true <-> a = b.
Proof.
  revert b; induction a as [|x a IH]; intros [|y b]; simpl;
    try (split; [discriminate | congruence]); try tauto.
  rewrite andb_true_iff, Ascii.eqb_eq, IH.
  split; [intros [-> ->]; reflexivity | intros H; injection H; auto].
Qed.

Lemma str_eqb_refl (a : str) : str_eqb a a = true.
Proof. apply str_eqb_eq; reflexivity. Qed.

Lemma str_eqb_neq (a b : str) : str_eqb a b = false <-> a <> b.
Proof.
  rewrite <- str_eqb_eq. destruct (str_eqb a b); split; congruence.
Qed.

Lemma rfind_lower (s : str) (c : ascii) : -1 <= rfind s c.
Proof.
  induction s as [|x t IH]; simpl; [lia|].
  destruct (0 <=? rfind t c) eqn:E; [apply Z.leb_le in E; lia|].
  destruct (Ascii.eqb x c); lia.
Qed.

Lemma rfind_absent (s : str) (c : ascii) : ~ In c s -> rfind s c = -1.
Proof.
  induction s as [|x t IH]; simpl; intros H; [reflexivity|].
  rewrite IH by tauto. simpl.
  destruct (Ascii.eqb x c) eqn:E; [|reflexivity].
  apply Ascii.eqb_eq in E. tauto.
Qed.

(** The index [rfind] returns is that of the last occurrence. *)
Lemma rfind_last (pre suf : str) (c : ascii) :
  ~ In c suf -> rfind (pre ++ c :: suf) c = Z.of_nat (length pre).
Proof.
  intros H. induction pre as [|x pre IH]; simpl.
  - rewrite (rfind_absent suf c H). simpl. rewrite Ascii.eqb_refl. reflexivity.
  - rewrite IH.
    destruct (0 <=? Z.of_nat (length pre)) eqn:E; [lia|].
    apply Z.leb_gt in E. lia.
Qed.

(** Every string either lacks [c] or splits at its last [c]. *)
Lemma last_occurrence (s : str) (c : ascii) :
  ~ In c s \/ exists pre suf, s = pre ++ c :: suf /\ ~ In c suf.
Proof.
  induction s as [|x t [IH | (pre & suf & -> & IH)]].
  - left; simpl; tauto.
  - destruct (ascii_dec x c) as [-> | Hx].
    + right. exists [], t. split; [reflexivity | assumption].
    + left. simpl. tauto.
  - right. exists (x :: pre), suf. split; [reflexivity | assumption].
Qed.

Lemma clamp_inside (n i : Z) : 0 <= i <= n -> clamp n i = i.
Proof. intros H. unfold clamp. destruct (i <? 0) eqn:E; lia. Qed.

Lemma slice_to_app (a b : str) : slice_to (a ++ b) (len a) = a.
Proof.
  unfold slice_to, slice, len. rewrite length_app.
  rewrite !clamp_inside by lia. simpl skipn.
  rewrite Z.sub_0_r, Nat2Z.id.
  rewrite firstn_app, Nat.sub_diag, firstn_all. simpl. apply app_nil_r.
Qed.

Lemma slice_from_app (a b : str) : slice_from (a ++ b) (len a) = b.
Proof.
  unfold slice_from, slice, len. rewrite length_app.
  rewrite !clamp_inside by lia. rewrite Nat2Z.id.
  rewrite skipn_app, Nat.sub_diag, skipn_all. simpl.
  apply firstn_all2. lia.
Qed.

Lemma slice_one (a b : str) (c : ascii) :
  slice (a ++ c :: b) (len a) (len a + 1) = [c].
Proof.
  unfold slice, len. rewrite length_app. simpl length.
  rewrite !clamp_inside by lia. rewrite Nat2Z.id.
  rewrite skipn_app, Nat.sub_diag, skipn_all. simpl.
  replace (Z.to_nat (Z.of_nat (length a) + 1 - Z.of_nat (length a)))
    with 1%nat by lia.
  reflexivity.
Qed.

Lemma slice_to_zero (s : str) : slice_to s 0 = [].
Proof.
  unfold slice_to, slice. rewrite clamp_inside by (unfold len; lia).
  reflexivity.
Qed.

Lemma dropwhile_repeat (f : ascii -> bool) (c : ascii) (k : nat) (s : str) :
  f c = true -> dropwhile f (repeat c k ++ s) = dropwhile f s.
Proof. intros H. induction k; simpl; [reflexivity | rewrite H; exact IHk]. Qed.

Lemma dropwhile_split (f : ascii -> bool) (s : str) :
  exists t, s = t ++ dropwhile f s /\ Forall (fun c => f c = true) t.
Proof.
  induction s as [|x s (t & Ht & Hall)]; simpl.
  - exists []. split; [reflexivity | constructor].
  - destruct (f x) eqn:E.
    + exists (x :: t). split; [simpl; congruence | constructor; assumption].
    + exists []. split; [reflexivity | constructor].
Qed.

Lemma dropwhile_head (f : ascii -> bool) (s : str) :
  match dropwhile f s with [] => True | x :: _ => f x = false end.
Proof.
  induction s as [|x s IH]; simpl; [exact I|].
  destruct (f x) eqn:E; [exact IH | exact E].
Qed.

Lemma rev_repeat_same (c : ascii) (k : nat) : rev (repeat c k) = repeat c k.
Proof.
  induction k; simpl; [reflexivity|].
  rewrite IHk. symmetry. apply repeat_cons.
Qed.

End PyFacts.

(** ** [os.path] *)

Section PathFacts.

(** A path is a head, empty or ending in a separator, followed by a
    tail without separators; [rfind] points just before the tail. *)
Lemma path_parts (p : str) :
  exists head tail,
    p = head ++ tail /\ ~ In sep tail
    /\ (head = [] \/ exists h, head = h ++ [sep])
    /\ rfind p sep + 1 = len head.
Proof.
  destruct (last_occurrence p sep) as [H | (pre & suf & -> & H)].
  - exists [], p. repeat split; auto.
    rewrite rfind_absent by assumption. reflexivity.
  - exists (pre ++ [sep]), suf. repeat split; auto.
    + rewrite <- app_assoc. reflexivity.
    + right. exists pre. reflexivity.
    + rewrite rfind_last by assumption.
      unfold len. rewrite length_app. simpl. lia.
Qed.

Lemma startswith_absent (s : str) (c : ascii) :
  ~ In c s -> startswith s c = false.
Proof.
  destruct s as [|x s]; simpl; intros H; [reflexivity|].
  destruct (Ascii.eqb x c) eqn:E; [|reflexivity].
  apply Ascii.eqb_eq in E. tauto.
Qed.

Lemma rstrip_sep_tail (u : str) (x : ascii) (k : nat) :
  x <> sep -> rstrip ((u ++ [x]) ++ repeat sep k) [sep] = u ++ [x].
Proof.
  intros Hx. unfold rstrip, rstrip_by.
  rewrite rev_app_distr, rev_repeat_same, dropwhile_repeat by reflexivity.
  rewrite rev_app_distr. simpl.
  apply Ascii.eqb_neq in Hx. rewrite Hx. simpl.
  rewrite rev_involutive. reflexivity.
Qed.

(** A string is made of separators only, or ends in a run of separators
    after a character that is not one. *)
Lemma sep_run (s : str) :
  s = repeat sep (length s)
  \/ exists u x k, s = (u ++ [x]) ++ repeat sep k /\ x <> sep.
Proof.
  induction s as [|y s IH] using rev_ind; [left; reflexivity|].
  destruct (ascii_dec y sep) as [-> | Hy].
  - destruct IH as [IH | (u & x & k & -> & Hx)].
    + left. rewrite length_app. simpl length.
      rewrite Nat.add_1_r.
      change (repeat sep (S (length s))) with (sep :: repeat sep (length s)).
      rewrite repeat_cons, <- IH. reflexivity.
    + right. exists u, x, (S k). split; [|assumption].
      rewrite <- app_assoc. f_equal. simpl. rewrite repeat_cons. reflexivity.
  - right. exists s, y, 0%nat. split; [|assumption].
    simpl. rewrite app_nil_r. reflexivity.
Qed.

Lemma not_sep_run (u : str) (x : ascii) (k : nat) (n : nat) :
  x <> sep -> (u ++ [x]) ++ repeat sep k <> repeat sep n.
Proof.
  intros Hx E.
  assert (In x (repeat sep n)) as H.
  { rewrite <- E. apply in_or_app. left. apply in_or_app. right. left.
    reflexivity. }
  apply repeat_spec in H. contradiction.
Qed.

Lemma basename_tail (head tail : str) :
  rfind (head ++ tail) sep + 1 = len head ->
  basename (head ++ tail) = tail.
Proof. intros H. unfold basename. rewrite H. apply slice_from_app. Qed.

Lemma dirname_head (head tail : str) :
  rfind (head ++ tail) sep + 1 = len head ->
  dirname (head ++ tail) =
    if truthy head && negb (str_eqb head (repeat sep (length head)))
    then rstrip head [sep] else head.
Proof. intros H. unfold dirname. rewrite H, slice_to_app. reflexivity. Qed.

(** The shape of a path around its directory name: the directory, a run
    of [k] separators, the base name.  The directory is a run of
    separators (possibly empty) directly followed by the base name, or
    it ends in another character and at least one separator follows. *)
Lemma dirname_parts (p : str) :
  exists k,
    p = dirname p ++ repeat sep k ++ basename p
    /\ ~ In sep (basename p)
    /\ ((dirname p = repeat sep (length (dirname p)) /\ k = 0%nat)
        \/ ((exists u x, dirname p = u ++ [x] /\ x <> sep) /\ (1 <= k)%nat)).
Proof.
  destruct (path_parts p) as (head & tail & -> & Htail & Hhead & Hi).
  rewrite (basename_tail _ _ Hi), (dirname_head _ _ Hi).
  destruct (sep_run head) as [Hrun | (u & x & k & Eh & Hx)].
  - rewrite <- Hrun, str_eqb_refl, andb_false_r. simpl.
    exists 0%nat. repeat split; auto.
  - assert (truthy head = true) as ->.
    { rewrite Eh. destruct u; reflexivity. }
    assert (str_eqb head (repeat sep (length head)) = false) as ->.
    { apply str_eqb_neq. rewrite Eh at 1. apply not_sep_run. assumption. }
    simpl. rewrite Eh, rstrip_sep_tail by assumption.
    exists k. split; [rewrite <- app_assoc; reflexivity|].
    split; [assumption|]. right. split; [exists u, x; auto|].
    destruct k; [|lia]. exfalso.
    destruct Hhead as [E | (h & E)]; rewrite Eh in E; simpl in E;
      rewrite app_nil_r in E.
    + destruct u; discriminate.
    + apply app_inj_tail in E. tauto.
Qed.

Lemma join_after_seps (d fn : str) :
  ~ In sep fn -> d = repeat sep (length d) -> join d fn = d ++ fn.
Proof.
  intros Hfn Hd. unfold join. rewrite startswith_absent by assumption.
  destruct d as [|c d]; [reflexivity|].
  unfold endswith. rewrite Hd at 2. rewrite rev_repeat_same. reflexivity.
Qed.

Lemma join_after_name (u : str) (x : ascii) (fn : str) :
  ~ In sep fn -> x <> sep -> join (u ++ [x]) fn = (u ++ [x]) ++ sep :: fn.
Proof.
  intros Hfn Hx. unfold join. rewrite startswith_absent by assumption.
  assert (truthy (u ++ [x]) = true) as -> by (destruct u; reflexivity).
  unfold endswith. rewrite rev_app_distr. simpl.
  apply Ascii.eqb_neq in Hx. rewrite Hx. reflexivity.
Qed.

(** Joining the directory of [p] with a file name puts the name after a
    prefix that is empty or ends in a separator, and whose directory
    name is that of [p]. *)
Lemma join_dirname_parts (p fn : str) :
  ~ In sep fn ->
  exists X,
    join (dirname p) fn = X ++ fn
    /\ (X = [] \/ exists h, X = h ++ [sep])
    /\ (truthy X && negb (str_eqb X (repeat sep (length X))) = true ->
        rstrip X [sep] = dirname p)
    /\ (truthy X && negb (str_eqb X (repeat sep (length X))) = false ->
        X = dirname p).
Proof.
  intros Hfn.
  destruct (dirname_parts p) as (k & _ & _ & [[Hd _] | [(u & x & Hd & Hx) _]]).
  - exists (dirname p). rewrite join_after_seps by assumption.
    split; [reflexivity|]. split.
    + destruct (dirname p) as [|c d] eqn:E; [left; reflexivity|].
      right. rewrite Hd. simpl length.
      change (repeat sep (S (length d))) with (sep :: repeat sep (length d)).
      rewrite repeat_cons. eexists; reflexivity.
    + rewrite <- Hd, str_eqb_refl, andb_false_r. split; [discriminate | auto].
  - exists (dirname p ++ [sep]). rewrite Hd, join_after_name by assumption.
    split; [rewrite <- (app_assoc (u ++ [x]) [sep] fn); reflexivity|].
    split; [right; eexists; reflexivity|].
    assert (truthy ((u ++ [x]) ++ [sep]) = true) as ->
      by (destruct u; reflexivity).
    assert (str_eqb ((u ++ [x]) ++ [sep])
              (repeat sep (length ((u ++ [x]) ++ [sep]))) = false) as ->.
    { apply str_eqb_neq. apply (not_sep_run u x 1). assumption. }
    split; [intros _ | discriminate].
    apply (rstrip_sep_tail u x 1). assumption.
Qed.

End PathFacts.

(** ** Output paths *)

Section OutputPathFacts.

Lemma rfind_after_prefix (X fn : str) :
  (X = [] \/ exists h, X = h ++ [sep]) -> ~ In sep fn ->
  rfind (X ++ fn) sep + 1 = len X.
Proof.
  intros [-> | (h & ->)] Hfn.
  - simpl. rewrite rfind_absent by assumption. reflexivity.
  - rewrite <- app_assoc. simpl. rewrite rfind_last by assumption.
    unfold len. rewrite length_app. simpl. lia.
Qed.

(** The directory of the joined path is the directory of the input. *)
Lemma dirname_of_join (p fn : str) :
  ~ In sep fn -> dirname (join (dirname p) fn) = dirname p.
Proof.
  intros Hfn.
  destruct (join_dirname_parts p fn Hfn) as (X & -> & HX & Hstrip & Hkeep).
  rewrite dirname_head by (apply rfind_after_prefix; assumption).
  destruct (truthy X && negb (str_eqb X (repeat sep (length X)))); auto.
Qed.

(** The joined path is the input only if the file name is the base name
    of the input. *)
Lemma join_dirname_neq (p fn : str) :
  ~ In sep fn -> fn <> basename p -> join (dirname p) fn <> p.
Proof.
  intros Hfn Hne E.
  destruct (dirname_parts p)
    as (k & Hp & Hb & [[Hd ->] | [(u & x & Hd & Hx) Hk]]).
  - rewrite join_after_seps in E by assumption.
    simpl in Hp.
    assert (dirname p ++ fn = dirname p ++ basename p) as E' by congruence.
    apply app_inv_head in E'. contradiction.
  - rewrite Hd, join_after_name in E by assumption.
    rewrite Hd in Hp.
    assert ((u ++ [x]) ++ sep :: fn
            = (u ++ [x]) ++ repeat sep k ++ basename p) as E' by congruence.
    clear E. rename E' into E.
    apply app_inv_head in E.
    destruct k as [|[|k]]; [lia | |]; simpl in E; injection E as E.
    + contradiction.
    + apply Hfn. rewrite E. left. reflexivity.
Qed.

Lemma splitext_loop_result (p : str) (dotIndex filenameIndex : Z) (n : nat)
    (r : str * str) :
  splitext_loop p dotIndex filenameIndex n = Some r ->
  r = (slice_to p dotIndex, slice_from p dotIndex).
Proof.
  revert filenameIndex. induction n as [|n IH]; simpl; intros fi H.
  - discriminate.
  - destruct (negb (str_eqb (slice p fi (fi + 1)) [extsep])).
    + congruence.
    + apply (IH _ H).
Qed.

(** The loop leaves with the split as soon as one of the characters it
    visits is not a dot. *)
Lemma splitext_loop_exit (p : str) (dotIndex filenameIndex : Z) (n : nat)
    (j : Z) :
  filenameIndex <= j < filenameIndex + Z.of_nat n ->
  slice p j (j + 1) <> [extsep] ->
  splitext_loop p dotIndex filenameIndex n
  = Some (slice_to p dotIndex, slice_from p dotIndex).
Proof.
  revert filenameIndex. induction n as [|n IH]; intros fi Hj Hc; [lia|].
  simpl. destruct (str_eqb (slice p fi (fi + 1)) [extsep]) eqn:E; simpl.
  - apply str_eqb_eq in E. apply IH; [|assumption].
    assert (j <> fi) by (intros ->; contradiction). lia.
  - reflexivity.
Qed.

(** [splitext] leaves the path whole, or cuts it at its last dot. *)
Lemma splitext_cases (p : str) :
  splitext p = (p, [])
  \/ exists pre suf,
       p = pre ++ extsep :: suf /\ ~ In extsep suf
       /\ splitext p = (pre, extsep :: suf).
Proof.
  unfold splitext. rewrite slice_to_zero.
  destruct (rfind p extsep >? rfind p sep) eqn:Hgt; [|left; reflexivity].
  destruct (splitext_loop _ _ _ _) as [r|] eqn:Hloop; [|left; reflexivity].
  apply splitext_loop_result in Hloop. subst r. right.
  destruct (last_occurrence p extsep) as [H | (pre & suf & -> & H)].
  - rewrite rfind_absent in Hgt by assumption.
    pose proof (rfind_lower p sep). lia.
  - exists pre, suf. repeat split; auto.
    rewrite rfind_last by assumption.
    change (Z.of_nat (length pre)) with (len pre).
    rewrite slice_to_app, slice_from_app. reflexivity.
Qed.

Lemma splitext_concat (p : str) : fst (splitext p) ++ snd (splitext p) = p.
Proof.
  destruct (splitext_cases p) as [-> | (pre & suf & E & _ & ->)]; simpl.
  - apply app_nil_r.
  - symmetry. exact E.
Qed.

Lemma splitext_ext (p : str) :
  snd (splitext p) = [] \/ exists e, snd (splitext p) = extsep :: e.
Proof.
  destruct (splitext_cases p) as [-> | (pre & suf & _ & _ & ->)]; simpl.
  - left; reflexivity.
  - right; eexists; reflexivity.
Qed.

(** [splitext] on a path whose file name is [name] followed by a dot and
    a dotless extension [e], when [name] has a character other than a
    dot. *)
Lemma splitext_known (X name e : str) (c : ascii) :
  (X = [] \/ exists h, X = h ++ [sep]) ->
  ~ In sep name -> ~ In sep e -> ~ In extsep e ->
  In c name -> c <> extsep ->
  splitext (X ++ name ++ extsep :: e) = (X ++ name, extsep :: e).
Proof.
  intros HX Hname He Hdot Hc Hne.
  assert (rfind (X ++ name ++ extsep :: e) sep + 1 = len X) as Hsep.
  { apply rfind_after_prefix; [assumption|].
    intros H. apply in_app_or in H. destruct H as [H | [H | H]]; auto.
    discriminate. }
  assert (rfind (X ++ name ++ extsep :: e) extsep = len (X ++ name)) as Hext.
  { rewrite app_assoc. apply rfind_last. assumption. }
  unfold splitext. rewrite Hsep, Hext.
  assert (rfind (X ++ name ++ extsep :: e) sep = len X - 1) as -> by lia.
  assert (len (X ++ name) = len X + len name) as Hlen.
  { unfold len. rewrite length_app. lia. }
  destruct (len (X ++ name) >? len X - 1) eqn:Hgt;
    [|unfold len in *; lia].
  apply in_split in Hc. destruct Hc as (n1 & n2 & ->).
  rewrite (splitext_loop_exit _ _ _ _ (len (X ++ n1))).
  - rewrite (app_assoc X _ (extsep :: e)). rewrite <- Hext at 1 2.
    rewrite Hext. rewrite slice_to_app, slice_from_app. reflexivity.
  - unfold len in *. rewrite !length_app in *. simpl in *. lia.
  - replace (X ++ (n1 ++ c :: n2) ++ extsep :: e)
      with ((X ++ n1) ++ c :: (n2 ++ extsep :: e)).
    + rewrite slice_one. congruence.
    + rewrite <- !app_assoc. reflexivity.
Qed.

End OutputPathFacts.

(** ** The file names the scripts build *)

Section FileNames.

Lemma basename_no_sep (p : str) : ~ In sep (basename p).
Proof. destruct (dirname_parts p) as (k & _ & H & _). exact H. Qed.

Lemma suffixed_no_sep (b mid : str) :
  ~ In sep b -> ~ In sep mid ->
  ~ In sep (fst (splitext b) ++ mid ++ snd (splitext b)).
Proof.
  intros Hb Hmid H. rewrite <- (splitext_concat b) in Hb.
  apply in_app_or in H. destruct H as [H | H].
  - apply Hb. apply in_or_app. left. exact H.
  - apply in_app_or in H. destruct H as [H | H]; [contradiction|].
    apply Hb. apply in_or_app. right. exact H.
Qed.

Lemma suffixed_neq (b mid : str) :
  mid <> [] -> fst (splitext b) ++ mid ++ snd (splitext b) <> b.
Proof.
  intros Hmid E. apply (f_equal (@length ascii)) in E.
  rewrite <- (splitext_concat b) in E at 3.
  rewrite !length_app in E. destruct mid; [congruence | simpl in E; lia].
Qed.

Lemma forced_no_sep (b ending : str) :
  ~ In sep b -> ~ In sep ending -> ~ In sep (fst (splitext b) ++ ending).
Proof.
  intros Hb He H. rewrite <- (splitext_concat b) in Hb.
  apply in_app_or in H. destruct H as [H | H]; [|contradiction].
  apply Hb. apply in_or_app. left. exact H.
Qed.

Lemma forced_neq (b ending : str) (c : ascii) :
  c <> extsep -> fst (splitext b) ++ c :: ending <> b.
Proof.
  intros Hc E. rewrite <- (splitext_concat b) in E at 2.
  apply app_inv_head in E.
  destruct (splitext_ext b) as [H | (e & H)]; rewrite H in E.
  - discriminate.
  - injection E as E _. contradiction.
Qed.

Lemma VideoRepair_output (p : str) :
  VideoRepair.output_path p
  = join (dirname p)
      (fst (splitext (basename p)) ++ "_noncorrupt"
         ++ snd (splitext (basename p))).
Proof.
  unfold VideoRepair.output_path. destruct (splitext (basename p)). reflexivity.
Qed.

Lemma Script1_output (p : str) :
  Script1.output_path p = VideoRepair.output_path p.
Proof. reflexivity. Qed.

Lemma Script3_output (p : str) :
  Script3.output_path p
  = join (dirname p) (fst (splitext (basename p)) ++ "_noncorrupt.mp4").
Proof.
  unfold Script3.output_path. destruct (splitext (basename p)). reflexivity.
Qed.

Lemma Script4_output (p : str) :
  Script4.output_path p
  = join (dirname p)
      (fst (splitext (basename p)) ++ ".fixed" ++ snd (splitext (basename p))).
Proof.
  unfold Script4.output_path. destruct (splitext (basename p)). reflexivity.
Qed.

Lemma no_sep_noncorrupt : ~ In sep ("_noncorrupt" : str).
Proof.
  simpl. intros H.
  repeat (destruct H as [H | H]; [discriminate|]). exact H.
Qed.

Lemma no_sep_noncorrupt_mp4 : ~ In sep ("_noncorrupt.mp4" : str).
Proof.
  simpl. intros H.
  repeat (destruct H as [H | H]; [discriminate|]). exact H.
Qed.

Lemma no_sep_fixed : ~ In sep (".fixed" : str).
Proof.
  simpl. intros H.
  repeat (destruct H as [H | H]; [discriminate|]). exact H.
Qed.

Lemma VideoRepair_output_neq (p : str) : VideoRepair.output_path p <> p.
Proof.
  rewrite VideoRepair_output. apply join_dirname_neq.
  - apply suffixed_no_sep; [apply basename_no_sep | apply no_sep_noncorrupt].
  - apply suffixed_neq. discriminate.
Qed.

Lemma Script3_output_neq (p : str) : Script3.output_path p <> p.
Proof.
  rewrite Script3_output. apply join_dirname_neq.
  - apply forced_no_sep; [apply basename_no_sep | apply no_sep_noncorrupt_mp4].
  - apply forced_neq. discriminate.
Qed.

Lemma Script4_output_neq (p : str) : Script4.output_path p <> p.
Proof.
  rewrite Script4_output. apply join_dirname_neq.
  - apply suffixed_no_sep; [apply basename_no_sep | apply no_sep_fixed].
  - apply suffixed_neq. discriminate.
Qed.

(** The comparison that guards the identical-paths branch of 4.py. *)
Lemma Script4_guard (p : str) : str_eqb p (Script4.output_path p) = false.
Proof.
  apply str_eqb_neq. intros E. apply (Script4_output_neq p). congruence.
Qed.

End FileNames.

(** ** The runs of the scripts *)

Section Runs.

Lemma exists_and_nonempty_total (f : FileSystem) (p : str) :
  Script4.exists_and_nonempty f p
  = Some (match f p with Some size => size >? 0 | None => false end).
Proof.
  unfold Script4.exists_and_nonempty, path_exists.
  destruct (f p); reflexivity.
Qed.

(** The outcome of 4.py, branch by branch. *)
Lemma Script4_outcome (w : World) (p : str) :
  fst (Script4.repair_video_ffmpeg w p)
  = if negb (path_exists (fs w) p) then InputNotFound
    else match spawn w (Script4.command p) with
         | Process c =>
             if (returncode c =? 0)
                && match fs_after c (Script4.output_path p) with
                   | Some size => size >? 0
                   | None => false
                   end
             then Succeeded else Failed (returncode c)
         | FileNotFoundError => ToolNotFound
         | Exception e => UnexpectedError e
         | Interrupted _ e => UnexpectedError e
         end.
Proof.
  unfold Script4.repair_video_ffmpeg. rewrite Script4_guard.
  destruct (negb (path_exists (fs w) p)); [reflexivity|].
  destruct (spawn w (Script4.command p)) as [c| |e|r e]; try reflexivity.
  rewrite exists_and_nonempty_total.
  destruct (returncode c =? 0); [|reflexivity].
  destruct (fs_after c (Script4.output_path p)) as [size|]; [|reflexivity].
  destruct (size >? 0); reflexivity.
Qed.

(** The outcome of video_repair.py, branch by branch. *)
Lemma VideoRepair_outcome (w : World) (p : str) :
  fst (VideoRepair.repair_video w p)
  = if negb (path_exists (fs w) p) then InputNotFound
    else match spawn w (VideoRepair.command p) with
         | Process c =>
             if returncode c =? 0 then Succeeded else Failed (returncode c)
         | FileNotFoundError => ToolNotFound
         | Exception e => UnexpectedError e
         | Interrupted _ e => UnexpectedError e
         end.
Proof.
  unfold VideoRepair.repair_video.
  destruct (negb (path_exists (fs w) p)); [reflexivity|].
  destruct (spawn w (VideoRepair.command p)) as [c| |e|r e]; try reflexivity.
  destruct (returncode c =? 0); reflexivity.
Qed.

Lemma spawn_not_on_path (w : World) (program : str) (args : list str) :
  on_path w program = false -> spawn w (program :: args) = FileNotFoundError.
Proof. intros H. simpl. rewrite H. reflexivity. Qed.

End Runs.

(** * The claims *)

(** Claim C2: for every input path, the derived output path (the input
    directory joined with the base name, a fixed suffix put before the
    extension) differs from the input path, in video_repair.py and in
    4.py; so no run of 4.py ends in its identical-paths branch. *)
Theorem output_path_never_input (input_path : str) :
  VideoRepair.output_path input_path <> input_path
  /\ Script4.output_path input_path <> input_path
  /\ forall w : World,
       fst (Script4.repair_video_ffmpeg w input_path) <> IdenticalPaths.
Proof.
  split; [apply VideoRepair_output_neq|].
  split; [apply Script4_output_neq|].
  intros w. rewrite Script4_outcome.
  destruct (negb (path_exists (fs w) input_path)); [discriminate|].
  destruct (spawn w (Script4.command input_path)) as [c| |e|r e];
    try discriminate.
  destruct (_ && _); discriminate.
Qed.

(** Claim C10: for every input path, the derived output path has the
    directory component of the input path, in video_repair.py, 3.py and
    4.py: the output file is placed next to the input file. *)
Theorem output_in_input_directory (input_path : str) :
  dirname (VideoRepair.output_path input_path) = dirname input_path
  /\ dirname (Script3.output_path input_path) = dirname input_path
  /\ dirname (Script4.output_path input_path) = dirname input_path.
Proof.
  rewrite VideoRepair_output, Script3_output, Script4_output.
  repeat split; apply dirname_of_join.
  - apply suffixed_no_sep; [apply basename_no_sep | apply no_sep_noncorrupt].
  - apply forced_no_sep; [apply basename_no_sep | apply no_sep_noncorrupt_mp4].
  - apply suffixed_no_sep; [apply basename_no_sep | apply no_sep_fixed].
Qed.

(** Claim C7: for every input path, the extension of the output path of
    the forced-format script 3.py, as [splitext] reads it, is [.mp4],
    whatever the extension of the input. *)
Theorem forced_format_extension (input_path : str) :
  snd (splitext (Script3.output_path input_path)) = (".mp4" : str).
Proof.
  rewrite Script3_output.
  set (root := fst (splitext (basename input_path))).
  assert (~ In sep root) as Hroot.
  { intros H. apply (basename_no_sep input_path).
    rewrite <- (splitext_concat (basename input_path)).
    apply in_or_app. left. exact H. }
  destruct (join_dirname_parts input_path (root ++ "_noncorrupt.mp4"))
    as (X & -> & HX & _).
  { intros H. apply in_app_or in H. destruct H as [H | H];
      [contradiction | exact (no_sep_noncorrupt_mp4 H)]. }
  change ("_noncorrupt.mp4" : str)
    with (("_noncorrupt" : str) ++ extsep :: ("mp4" : str)).
  rewrite (app_assoc root).
  rewrite (splitext_known X (root ++ "_noncorrupt") "mp4" "_"%char);
    try assumption; try discriminate.
  - reflexivity.
  - intros H. apply in_app_or in H. destruct H as [H | H];
      [contradiction | exact (no_sep_noncorrupt H)].
  - simpl. intros H. repeat (destruct H as [H | H]; [discriminate|]). exact H.
  - simpl. intros H. repeat (destruct H as [H | H]; [discriminate|]). exact H.
  - apply in_or_app. right. left. reflexivity.
Qed.

(** Claim C3: for every input path at which nothing exists, the run
    reports InputNotFound, prints that one message and never calls the
    external tool, in video_repair.py and in 4.py. *)
Theorem missing_input_spawns_nothing (w : World) (input_path : str) :
  path_exists (fs w) input_path = false ->
  VideoRepair.repair_video w input_path
    = (InputNotFound, [Print (MsgNotFound input_path)])
  /\ Script4.repair_video_ffmpeg w input_path
    = (InputNotFound, [Print (MsgNotFound input_path)])
  /\ (forall command,
        ~ In (Invoke command) (snd (VideoRepair.repair_video w input_path)))
  /\ (forall command,
        ~ In (Invoke command) (snd (Script4.repair_video_ffmpeg w input_path))).
Proof.
  intros H.
  assert (VideoRepair.repair_video w input_path
          = (InputNotFound, [Print (MsgNotFound input_path)])) as E1.
  { unfold VideoRepair.repair_video. rewrite H. reflexivity. }
  assert (Script4.repair_video_ffmpeg w input_path
          = (InputNotFound, [Print (MsgNotFound input_path)])) as E4.
  { unfold Script4.repair_video_ffmpeg. rewrite H. reflexivity. }
  rewrite E1, E4. repeat split; intros command [F | F]; try discriminate;
    exact F.
Qed.

Lemma missing_input_spawns_nothing_witness :
  path_exists (fs world_empty) clip = false
  /\ VideoRepair.repair_video world_empty clip
     = (InputNotFound, [Print (MsgNotFound clip)]).
Proof.
  split; [reflexivity|].
  apply (missing_input_spawns_nothing world_empty clip). reflexivity.
Defined.

(** Claim C4: in every run that reaches the launch of the tool and
    cannot resolve [ffmpeg] on the search path, the outcome is
    ToolNotFound, in video_repair.py and in 4.py; a run in which the
    tool is resolved and exits with a non-zero code ends in Failed with
    that code, a different outcome. *)
Theorem missing_tool_reported_distinctly
    (w w' : World) (input_path : str) (c : Completed) :
  path_exists (fs w) input_path = true ->
  on_path w "ffmpeg" = false ->
  path_exists (fs w') input_path = true ->
  spawn w' (VideoRepair.command input_path) = Process c ->
  spawn w' (Script4.command input_path) = Process c ->
  returncode c <> 0 ->
  VideoRepair.repair_video w input_path
    = (ToolNotFound,
       [Print (MsgPlan input_path (VideoRepair.output_path input_path));
        Invoke (VideoRepair.command input_path);
        Print MsgToolNotFound])
  /\ Script4.repair_video_ffmpeg w input_path
    = (ToolNotFound,
       [Print (MsgPlan input_path (Script4.output_path input_path));
        Invoke (Script4.command input_path);
        Print MsgToolNotFound])
  /\ fst (VideoRepair.repair_video w' input_path) = Failed (returncode c)
  /\ fst (Script4.repair_video_ffmpeg w' input_path) = Failed (returncode c)
  /\ ToolNotFound <> Failed (returncode c).
Proof.
  intros Hin Htool Hin' Hv Hf Hrc.
  apply Z.eqb_neq in Hrc.
  repeat split.
  - unfold VideoRepair.repair_video. rewrite Hin. simpl negb. cbv iota.
    unfold VideoRepair.command at 1.
    rewrite spawn_not_on_path by exact Htool. reflexivity.
  - unfold Script4.repair_video_ffmpeg. rewrite Hin, Script4_guard.
    simpl negb. cbv iota.
    unfold Script4.command at 1.
    rewrite spawn_not_on_path by exact Htool. reflexivity.
  - rewrite VideoRepair_outcome, Hin', Hv, Hrc. reflexivity.
  - rewrite Script4_outcome, Hin', Hf, Hrc. reflexivity.
  - discriminate.
Qed.

Lemma missing_tool_reported_distinctly_witness :
  (path_exists (fs world_no_tool) clip = true
   /\ on_path world_no_tool "ffmpeg" = false
   /\ path_exists (fs world_failing) clip = true
   /\ spawn world_failing (VideoRepair.command clip) = Process done_failed
   /\ spawn world_failing (Script4.command clip) = Process done_failed
   /\ returncode done_failed <> 0)
  /\ fst (VideoRepair.repair_video world_no_tool clip) = ToolNotFound
  /\ fst (Script4.repair_video_ffmpeg world_no_tool clip) = ToolNotFound
  /\ fst (VideoRepair.repair_video world_failing clip) = Failed 1
  /\ fst (Script4.repair_video_ffmpeg world_failing clip) = Failed 1.
Proof.
  split.
  - repeat split; try reflexivity. discriminate.
  - destruct (missing_tool_reported_distinctly
                world_no_tool world_failing clip done_failed)
      as (H1 & H2 & H3 & H4 & _);
      try reflexivity; try discriminate.
    rewrite H1, H2, H3, H4. repeat split; reflexivity.
Defined.

(** Claim C1, as the scripts have it: in every run that launches the
    tool and waits for it, 4.py reports Succeeded exactly when the exit
    code is zero and the output file exists with non-zero size, and
    Failed with the exit code otherwise; video_repair.py reports
    Succeeded exactly when the exit code is zero, without looking at the
    output file, and Failed with the exit code otherwise. *)
Theorem outcome_classification
    (w : World) (input_path : str) (c1 c4 : Completed) :
  path_exists (fs w) input_path = true ->
  spawn w (VideoRepair.command input_path) = Process c1 ->
  spawn w (Script4.command input_path) = Process c4 ->
  (fst (Script4.repair_video_ffmpeg w input_path) = Succeeded
   <-> returncode c4 = 0
       /\ output_written c4 (Script4.output_path input_path))
  /\ (fst (Script4.repair_video_ffmpeg w input_path) = Succeeded
      \/ fst (Script4.repair_video_ffmpeg w input_path)
         = Failed (returncode c4))
  /\ (fst (VideoRepair.repair_video w input_path) = Succeeded
      <-> returncode c1 = 0)
  /\ (fst (VideoRepair.repair_video w input_path) = Succeeded
      \/ fst (VideoRepair.repair_video w input_path)
         = Failed (returncode c1)).
Proof.
  intros Hin H1 H4.
  rewrite Script4_outcome, VideoRepair_outcome, Hin, H1, H4. simpl negb.
  cbv iota. unfold output_written.
  split; [|split; [|split]].
  - destruct (returncode c4 =? 0) eqn:Hrc; simpl.
    + apply Z.eqb_eq in Hrc.
      destruct (fs_after c4 (Script4.output_path input_path)) as [size|].
      * destruct (size >? 0) eqn:Hs.
        -- split; [intros _|reflexivity]. split; [assumption|].
           exists size. split; [reflexivity | lia].
        -- split; [discriminate|]. intros (_ & size' & E & Hpos).
           injection E as ->. lia.
      * split; [discriminate|]. intros (_ & size' & E & _). discriminate.
    + apply Z.eqb_neq in Hrc. split; [discriminate | tauto].
  - destruct (_ && _); [left | right]; reflexivity.
  - destruct (returncode c1 =? 0) eqn:Hrc.
    + apply Z.eqb_eq in Hrc. tauto.
    + apply Z.eqb_neq in Hrc. split; [discriminate | tauto].
  - destruct (returncode c1 =? 0); [left | right]; reflexivity.
Qed.

Lemma outcome_classification_witness :
  (path_exists (fs world_no_output) clip = true
   /\ spawn world_no_output (VideoRepair.command clip) = Process done_nothing
   /\ spawn world_no_output (Script4.command clip) = Process done_nothing)
  /\ fst (Script4.repair_video_ffmpeg world_no_output clip) = Failed 0
  /\ fst (VideoRepair.repair_video world_no_output clip) = Succeeded.
Proof.
  split; [repeat split; reflexivity|].
  destruct (outcome_classification world_no_output clip
              done_nothing done_nothing)
    as (_ & [H4 | H4] & H1 & _); try reflexivity.
  - discriminate H4.
  - split; [exact H4 | apply H1; reflexivity].
Defined.

(** Claim C1 as stated fails on video_repair.py: when the tool exits 0
    and leaves no output file, the run is still classified Succeeded. *)
Lemma success_without_output_file :
  path_exists (fs world_no_output) clip = true
  /\ spawn world_no_output (VideoRepair.command clip) = Process done_nothing
  /\ fs_after done_nothing (VideoRepair.output_path clip) = None
  /\ ~ (fst (VideoRepair.repair_video world_no_output clip) = Succeeded
        <-> returncode done_nothing = 0
            /\ output_written done_nothing (VideoRepair.output_path clip)).
Proof.
  repeat split; try reflexivity.
  intros [H _]. destruct (H eq_refl) as (_ & size & E & _).
  vm_compute in E. discriminate.
Qed.

(** ** Argument lists *)

Lemma Script4_output_long (p : str) : (6 <= length (Script4.output_path p))%nat.
Proof.
  rewrite Script4_output.
  destruct (join_dirname_parts p
              (fst (splitext (basename p)) ++ ".fixed"
                 ++ snd (splitext (basename p)))) as (X & -> & _).
  - apply suffixed_no_sep; [apply basename_no_sep | apply no_sep_fixed].
  - rewrite !length_app. simpl. lia.
Qed.

(** The overwrite flag, script by script: the argument lists of
    video_repair.py (remux), 1.py (full re-encode) and 3.py
    (forced-format re-encode) contain [-y] for every input path; in the
    list of 4.py (remux) [-y] occurs only when the input path itself is
    that string. *)
Theorem overwrite_flag_by_script (input_path : str) :
  In overwrite_flag (VideoRepair.command input_path)
  /\ In overwrite_flag (Script1.command input_path)
  /\ In overwrite_flag (Script3.command input_path)
  /\ (In overwrite_flag (Script4.command input_path)
      <-> input_path = overwrite_flag).
Proof.
  split; [|split; [|split]].
  - unfold VideoRepair.command. simpl. tauto.
  - unfold Script1.command. simpl. tauto.
  - unfold Script3.command. simpl. tauto.
  - unfold Script4.command. split.
    + intros H. simpl in H.
      destruct H as [H | [H | [H | [H | [H | [H | []]]]]]];
        try discriminate; [congruence|].
      pose proof (Script4_output_long input_path) as L.
      rewrite H in L. simpl in L. lia.
    + intros ->. right. right. left. reflexivity.
Qed.

(** Claim C5: a defect of 4.py.  The remux script video_repair.py, like
    1.py and 3.py, passes the overwrite flag [-y]; 4.py builds
    [ffmpeg -i input -c copy output] without it.  On a second run for
    [/videos/clip.mp4], with [/videos/clip.fixed.mp4] already there,
    the tool is launched with that list, not told to overwrite. *)
Lemma remux_without_overwrite_flag :
  path_exists (fs world_rerun) clip = true
  /\ path_exists (fs world_rerun) (Script4.output_path clip) = true
  /\ invocations (snd (Script4.repair_video_ffmpeg world_rerun clip))
     = [[ "ffmpeg" : str; "-i" : str; clip; "-c" : str; "copy" : str;
          "/videos/clip.fixed.mp4" : str ]]
  /\ Script4.command clip
     = [ "ffmpeg" : str; "-i" : str; clip; "-c" : str; "copy" : str;
         "/videos/clip.fixed.mp4" : str ]
  /\ ~ In overwrite_flag (Script4.command clip)
  /\ In overwrite_flag (VideoRepair.command clip)
  /\ In overwrite_flag (Script1.command clip)
  /\ In overwrite_flag (Script3.command clip).
Proof.
  split; [reflexivity|]. split; [reflexivity|]. split; [reflexivity|].
  split; [reflexivity|]. split.
  - vm_compute. intros H.
    repeat (destruct H as [H | H]; [discriminate|]). exact H.
  - unfold VideoRepair.command, Script1.command, Script3.command.
    simpl. tauto.
Qed.

(** Claim C6, as the scripts have it: for the input [/videos/clip.mp4]
    the remux scripts derive [/videos/clip_noncorrupt.mp4]
    (video_repair.py) and [/videos/clip.fixed.mp4] (4.py); each argument
    list holds exactly one stream-copy directive, [-c copy], and no
    bitrate flag. *)
Theorem remux_example :
  VideoRepair.output_path clip = ("/videos/clip_noncorrupt.mp4" : str)
  /\ Script4.output_path clip = ("/videos/clip.fixed.mp4" : str)
  /\ copy_directives (VideoRepair.command clip) = 1%nat
  /\ copy_directives (Script4.command clip) = 1%nat
  /\ existsb is_bitrate_flag (VideoRepair.command clip) = false
  /\ existsb is_bitrate_flag (Script4.command clip) = false
  /\ VideoRepair.command clip
     = [ "ffmpeg" : str; "-i" : str; clip; "-c" : str; "copy" : str;
         "-movflags" : str; "faststart" : str; "-y" : str;
         "/videos/clip_noncorrupt.mp4" : str ].
Proof. repeat split; vm_compute; reflexivity. Qed.

(** Claim C6 as stated fails: no script derives
    [/videos/clip_repaired.mp4] from [/videos/clip.mp4]. *)
Lemma repaired_suffix_absent :
  VideoRepair.output_path clip <> ("/videos/clip_repaired.mp4" : str)
  /\ Script4.output_path clip <> ("/videos/clip_repaired.mp4" : str).
Proof. split; vm_compute; discriminate. Qed.

(** ** The clean-up of the typed path *)

Section Cleanup.

Lemma replace_by_nothing (s : str) (old : ascii) :
  replace s old [] = filter (fun c => negb (Ascii.eqb c old)) s.
Proof.
  unfold replace. induction s as [|x s IH]; simpl; [reflexivity|].
  destruct (Ascii.eqb x old); simpl; rewrite IH; reflexivity.
Qed.

Lemma unquote_filter (s : str) :
  replace (replace s dquote []) squote []
  = filter (fun c => negb (is_quote c)) s.
Proof.
  rewrite !replace_by_nothing. unfold is_quote.
  induction s as [|x s IH]; simpl; [reflexivity|].
  destruct (Ascii.eqb x dquote); simpl; [exact IH|].
  destruct (Ascii.eqb x squote); simpl; rewrite IH; reflexivity.
Qed.

(** [strip] removes a run of white space at each end and stops at the
    first character, from either side, that is not white space. *)
Lemma strip_parts (s : str) :
  exists pre suf,
    s = pre ++ strip s ++ suf
    /\ Forall (fun c => isspace c = true) pre
    /\ Forall (fun c => isspace c = true) suf
    /\ match strip s with [] => True | c :: _ => isspace c = false end
    /\ match rev (strip s) with [] => True | c :: _ => isspace c = false end.
Proof.
  unfold strip, lstrip_by, rstrip_by.
  destruct (dropwhile_split isspace (rev s)) as (t1 & E1 & F1).
  pose proof (dropwhile_head isspace (rev s)) as H1.
  set (r := dropwhile isspace (rev s)) in *.
  destruct (dropwhile_split isspace (rev r)) as (t2 & E2 & F2).
  pose proof (dropwhile_head isspace (rev r)) as H2.
  set (mid := dropwhile isspace (rev r)) in *.
  exists t2, (rev t1). split; [|split; [|split; [|split]]].
  - rewrite app_assoc, <- E2, <- rev_app_distr, <- E1, rev_involutive.
    reflexivity.
  - exact F2.
  - apply Forall_rev. exact F1.
  - exact H2.
  - destruct (rev mid) as [|x m] eqn:Em; [exact I|].
    apply (f_equal (@rev ascii)) in E2.
    rewrite rev_involutive, rev_app_distr, Em in E2.
    rewrite E2 in H1. exact H1.
Qed.

Lemma strip_and_unquote_cleaned (s : str) : cleaned s (strip_and_unquote s).
Proof.
  destruct (strip_parts s) as (pre & suf & E & Fp & Fs & Hh & Ht).
  exists pre, (strip s), suf. repeat split; try assumption.
  unfold strip_and_unquote. apply unquote_filter.
Qed.

End Cleanup.

(** The clean-up, step by step: the path handed to the
    orchestrator is the typed line with the surrounding white space
    stripped and then every quote character removed, wherever it stands;
    white space that stood inside surrounding quotes stays.  4.py cleans
    a command-line argument twice, so there the white space uncovered by
    the first pass goes in the second.  An empty result is not handed
    on. *)
Theorem path_cleanup (typed : str) :
  cleaned typed (VideoRepair.input_video_path typed)
  /\ (forall w,
        fst (VideoRepair.main w typed)
        = if truthy (VideoRepair.input_video_path typed)
          then Some (fst (VideoRepair.repair_video w
                            (VideoRepair.input_video_path typed)))
          else None)
  /\ cleaned typed (Script4.corrupt_path [] typed)
  /\ (forall program, cleaned typed (Script4.corrupt_path [program] typed))
  /\ (forall program arg1 rest,
        exists once,
          cleaned arg1 once
          /\ cleaned once
               (Script4.corrupt_path (program :: arg1 :: rest) typed))
  /\ (forall w argv,
        fst (Script4.main w argv typed)
        = if truthy (Script4.corrupt_path argv typed)
          then Some (fst (Script4.repair_video_ffmpeg w
                            (Script4.corrupt_path argv typed)))
          else None).
Proof.
  split; [apply strip_and_unquote_cleaned|].
  split.
  { intros w. unfold VideoRepair.main.
    destruct (truthy (VideoRepair.input_video_path typed)); [|reflexivity].
    destruct (VideoRepair.repair_video w _); reflexivity. }
  split; [apply strip_and_unquote_cleaned|].
  split; [intros program; apply strip_and_unquote_cleaned|].
  split.
  { intros program arg1 rest. exists (strip_and_unquote arg1).
    split; apply strip_and_unquote_cleaned. }
  intros w argv. unfold Script4.main.
  destruct (truthy (Script4.corrupt_path argv typed)); [|reflexivity].
  destruct (Script4.repair_video_ffmpeg w _); reflexivity.
Qed.

(** Claim C8: a defect of the clean-up.  It is meant to remove the
    quotes a user pasted around a path, but it removes every quote
    character.  For [/home/o'brien/clip.mp4] nothing surrounds the
    path, yet the apostrophe goes: what is handed on is not a part of
    what was typed, and the file, which exists, is reported as not
    found. *)
Lemma interior_quote_removed :
  VideoRepair.input_video_path obrien = ("/home/obrien/clip.mp4" : str)
  /\ Script4.corrupt_path ["4.py" : str] obrien
     = ("/home/obrien/clip.mp4" : str)
  /\ strip_surrounding obrien = obrien
  /\ VideoRepair.input_video_path obrien <> strip_surrounding obrien
  /\ (forall pre suf,
        obrien <> pre ++ VideoRepair.input_video_path obrien ++ suf)
  /\ path_exists (fs world_obrien) obrien = true
  /\ VideoRepair.main world_obrien obrien
     = (Some InputNotFound,
        [Print MsgTitle; Print (MsgNotFound "/home/obrien/clip.mp4")])
  /\ Script4.main world_obrien ["4.py" : str] obrien
     = (Some InputNotFound,
        [Print MsgTitle; Print (MsgNotFound "/home/obrien/clip.mp4")]).
Proof.
  split; [reflexivity|]. split; [reflexivity|]. split; [reflexivity|].
  split; [vm_compute; discriminate|].
  split; [|repeat split; reflexivity].
  intros pre suf E.
  assert (length pre + length suf = 1)%nat as L.
  { apply (f_equal (@length ascii)) in E.
    rewrite !length_app in E.
    replace (length obrien) with 22%nat in E by reflexivity.
    replace (length (VideoRepair.input_video_path obrien)) with 21%nat in E
      by reflexivity.
    lia. }
  destruct pre as [|a [|b pre]]; simpl in L; [| |lia].
  - vm_compute in E. discriminate.
  - destruct suf; [|simpl in L; lia]. vm_compute in E. discriminate.
Qed.

(** * Further properties of the scripts *)

(** ** More on [os.path] *)

Section MorePathFacts.

Lemma rfind_upper (s : str) (c : ascii) : rfind s c < len s.
Proof.
  unfold len. induction s as [|x t IH]; simpl length; simpl rfind; [lia|].
  destruct (0 <=? rfind t c) eqn:E; [lia|].
  destruct (Ascii.eqb x c); lia.
Qed.

Lemma rfind_app_absent (X t : str) (c : ascii) :
  ~ In c t -> rfind (X ++ t) c = rfind X c.
Proof.
  intros H. induction X as [|x X IH]; simpl.
  - apply rfind_absent. exact H.
  - rewrite IH. reflexivity.
Qed.

Lemma splitext_loop_none (p : str) (dotIndex filenameIndex : Z) (n : nat) :
  (forall j, filenameIndex <= j < filenameIndex + Z.of_nat n ->
             slice p j (j + 1) = [extsep]) ->
  splitext_loop p dotIndex filenameIndex n = None.
Proof.
  revert filenameIndex. induction n as [|n IH]; intros fi H; [reflexivity|].
  simpl. rewrite (H fi) by lia. rewrite str_eqb_refl. simpl.
  apply IH. intros j Hj. apply H. lia.
Qed.

Lemma not_in_app (c : ascii) (a b : str) :
  ~ In c a -> ~ In c b -> ~ In c (a ++ b).
Proof. intros Ha Hb H. apply in_app_or in H. tauto. Qed.

Lemma not_in_app_l (c : ascii) (a b : str) : ~ In c (a ++ b) -> ~ In c a.
Proof. intros H Ha. apply H. apply in_or_app. tauto. Qed.

Lemma not_in_app_r (c : ascii) (a b : str) : ~ In c (a ++ b) -> ~ In c b.
Proof. intros H Hb. apply H. apply in_or_app. tauto. Qed.

(** A path whose file name has no dot has no extension, whatever dots
    its directories have. *)
Lemma splitext_nodot (X t : str) :
  (X = [] \/ exists h, X = h ++ [sep]) ->
  ~ In sep t -> ~ In extsep t ->
  splitext (X ++ t) = (X ++ t, []).
Proof.
  intros HX Hsep Hdot. unfold splitext. rewrite slice_to_zero.
  pose proof (rfind_after_prefix X t HX Hsep) as Hs.
  rewrite (rfind_app_absent X t extsep Hdot).
  pose proof (rfind_upper X extsep) as Hu.
  destruct (rfind X extsep >? rfind (X ++ t) sep) eqn:E; [lia | reflexivity].
Qed.

Lemma slice_in_repeat (X rest : str) (c : ascii) (k : nat) (j : Z) :
  len X <= j < len X + Z.of_nat k ->
  slice (X ++ repeat c k ++ rest) j (j + 1) = [c].
Proof.
  intros Hj.
  assert (exists i, j = len X + Z.of_nat i /\ (i < k)%nat) as (i & -> & Hi).
  { exists (Z.to_nat (j - len X)). lia. }
  assert (k = i + S (k - S i))%nat as Hk by lia.
  rewrite Hk, repeat_app. simpl repeat.
  replace (X ++ (repeat c i ++ c :: repeat c (k - S i)) ++ rest)
    with ((X ++ repeat c i) ++ c :: (repeat c (k - S i) ++ rest))
    by (rewrite <- !app_assoc; reflexivity).
  replace (len X + Z.of_nat i) with (len (X ++ repeat c i)).
  - apply slice_one.
  - unfold len. rewrite length_app, repeat_length. lia.
Qed.

(** A file name that starts with its dots and has none later has no
    extension. *)
Lemma splitext_leading_dots (X rest : str) (k : nat) :
  (X = [] \/ exists h, X = h ++ [sep]) ->
  ~ In sep rest -> ~ In extsep rest ->
  splitext (X ++ repeat extsep (S k) ++ rest)
  = (X ++ repeat extsep (S k) ++ rest, []).
Proof.
  intros HX Hsep Hdot.
  assert (~ In sep (repeat extsep (S k) ++ rest)) as Hsep'.
  { apply not_in_app; [|assumption].
    intros H. apply repeat_spec in H. discriminate. }
  pose proof (rfind_after_prefix X _ HX Hsep') as Hs.
  assert (rfind (X ++ repeat extsep (S k) ++ rest) extsep
          = len X + Z.of_nat k) as Hd.
  { replace (X ++ repeat extsep (S k) ++ rest)
      with ((X ++ repeat extsep k) ++ extsep :: rest).
    - rewrite rfind_last by assumption.
      unfold len. rewrite length_app, repeat_length. lia.
    - rewrite <- app_assoc. f_equal.
      change (repeat extsep (S k)) with (extsep :: repeat extsep k).
      rewrite repeat_cons, <- app_assoc. reflexivity. }
  unfold splitext. rewrite slice_to_zero, Hd.
  destruct (len X + Z.of_nat k >? rfind _ sep) eqn:E; [|reflexivity].
  rewrite splitext_loop_none; [reflexivity|].
  intros j Hj.
  change (repeat extsep (S k)) with (extsep :: repeat extsep k).
  rewrite repeat_cons, <- (app_assoc (repeat extsep k)).
  apply slice_in_repeat. lia.
Qed.

(** The three shapes of a file name: no dot; dots at the start only;
    a last dot after some character that is not a dot. *)
Lemma name_shape (b : str) :
  ~ In extsep b
  \/ (exists k rest, b = repeat extsep (S k) ++ rest /\ ~ In extsep rest)
  \/ (exists pre suf c,
        b = pre ++ extsep :: suf /\ ~ In extsep suf
        /\ In c pre /\ c <> extsep).
Proof.
  destruct (last_occurrence b extsep) as [H | (pre & suf & -> & H)];
    [left; exact H | right].
  assert (pre = repeat extsep (length pre)
          \/ exists c, In c pre /\ c <> extsep) as [Hp | (c & Hc & Hne)].
  { clear. induction pre as [|x pre [IH | (c & Hc & Hne)]].
    - left; reflexivity.
    - destruct (ascii_dec x extsep) as [-> | Hx].
      + left. simpl. rewrite <- IH. reflexivity.
      + right. exists x. split; [left; reflexivity | assumption].
    - right. exists c. split; [right; assumption | assumption]. }
  - left. exists (length pre), suf. split; [|assumption].
    change (repeat extsep (S (length pre)))
      with (extsep :: repeat extsep (length pre)).
    rewrite repeat_cons, <- Hp, <- app_assoc. reflexivity.
  - right. exists pre, suf, c. auto.
Qed.

(** A suffix without dots put between the stem and the extension of a
    file name stays in the stem: the extension is unchanged. *)
Lemma splitext_suffixed (X b mid : str) :
  (X = [] \/ exists h, X = h ++ [sep]) ->
  ~ In sep b -> ~ In sep mid -> ~ In extsep mid ->
  splitext (X ++ fst (splitext b) ++ mid ++ snd (splitext b))
  = (X ++ fst (splitext b) ++ mid, snd (splitext b)).
Proof.
  intros HX Hb Hmid Hdot.
  destruct (name_shape b)
    as [Hn | [(k & rest & E & Hn) | (pre & suf & c & E & Hn & Hc & Hne)]].
  - assert (splitext b = (b, [])) as ->
      by (apply (splitext_nodot [] b); auto).
    cbv beta iota delta [fst snd]. rewrite app_nil_r.
    apply splitext_nodot; auto using not_in_app.
  - assert (~ In sep rest) as Hr by (rewrite E in Hb; eauto using not_in_app_r).
    rewrite E.
    assert (splitext (repeat extsep (S k) ++ rest)
            = (repeat extsep (S k) ++ rest, [])) as ->
      by (apply (splitext_leading_dots [] rest k); auto).
    cbv beta iota delta [fst snd]. rewrite app_nil_r.
    rewrite <- (app_assoc (repeat extsep (S k)) rest mid).
    apply splitext_leading_dots; auto using not_in_app.
  - assert (~ In sep pre) as Hp by (rewrite E in Hb; eauto using not_in_app_l).
    assert (~ In sep suf) as Hs.
    { rewrite E in Hb. apply not_in_app_r in Hb.
      intros H. apply Hb. right. exact H. }
    rewrite E.
    assert (splitext (pre ++ extsep :: suf) = (pre, extsep :: suf)) as ->
      by (apply (splitext_known [] pre suf c); auto).
    cbv beta iota delta [fst snd].
    rewrite (app_assoc pre mid).
    apply (splitext_known X (pre ++ mid) suf c); auto using not_in_app.
    apply in_or_app. left. exact Hc.
Qed.

(** The base name of a joined path is the file name joined. *)
Lemma basename_of_join (p fn : str) :
  ~ In sep fn -> basename (join (dirname p) fn) = fn.
Proof.
  intros Hfn.
  destruct (join_dirname_parts p fn Hfn) as (X & -> & HX & _).
  apply basename_tail. apply rfind_after_prefix; assumption.
Qed.

Lemma join_dirname_inj (p fn fn' : str) :
  ~ In sep fn -> ~ In sep fn' ->
  join (dirname p) fn = join (dirname p) fn' -> fn = fn'.
Proof.
  intros H H' E. apply (f_equal basename) in E.
  rewrite !basename_of_join in E by assumption. exact E.
Qed.

End MorePathFacts.

(** ** More on the output paths *)

Section MoreOutputFacts.

(** The extension of a path is the extension of its base name. *)
Lemma splitext_ext_basename (p : str) :
  snd (splitext p) = snd (splitext (basename p)).
Proof.
  destruct (path_parts p) as (head & tail & -> & Htail & Hhead & Hi).
  rewrite (basename_tail _ _ Hi).
  pose proof (splitext_suffixed head tail [] Hhead Htail) as H.
  simpl in H. rewrite splitext_concat in H.
  rewrite H by tauto. reflexivity.
Qed.

(** Joining the directory of [p] with any file name puts the name after
    one and the same prefix. *)
Lemma join_prefix (p : str) :
  exists X,
    (X = [] \/ exists h, X = h ++ [sep])
    /\ forall fn, ~ In sep fn -> join (dirname p) fn = X ++ fn.
Proof.
  destruct (dirname_parts p) as (k & _ & _ & [[Hd _] | [(u & x & Hd & Hx) _]]).
  - exists (dirname p). split.
    + destruct (dirname p) as [|c d] eqn:E; [left; reflexivity|].
      right. rewrite Hd. simpl length.
      change (repeat sep (S (length d))) with (sep :: repeat sep (length d)).
      rewrite repeat_cons. eexists; reflexivity.
    + intros fn Hfn. apply join_after_seps; assumption.
  - exists (dirname p ++ [sep]). split; [right; eexists; reflexivity|].
    intros fn Hfn. rewrite Hd, join_after_name by assumption.
    rewrite <- (app_assoc (u ++ [x]) [sep] fn). reflexivity.
Qed.

Lemma splitext_name_cases (b : str) :
  ~ In sep b ->
  splitext b = (b, [])
  \/ exists pre suf c,
       b = pre ++ extsep :: suf /\ ~ In extsep suf /\ ~ In sep pre
       /\ ~ In sep suf /\ In c pre /\ c <> extsep
       /\ splitext b = (pre, extsep :: suf).
Proof.
  intros Hb.
  destruct (name_shape b)
    as [Hn | [(k & rest & E & Hn) | (pre & suf & c & E & Hn & Hc & Hne)]].
  - left. apply (splitext_nodot [] b); auto.
  - left. rewrite E. apply (splitext_leading_dots [] rest k); auto.
    rewrite E in Hb. eauto using not_in_app_r.
  - right. exists pre, suf, c.
    assert (~ In sep pre) as Hp by (rewrite E in Hb; eauto using not_in_app_l).
    assert (~ In sep suf) as Hs.
    { rewrite E in Hb. apply not_in_app_r in Hb.
      intros H. apply Hb. right. exact H. }
    repeat split; auto.
    rewrite E. apply (splitext_known [] pre suf c); auto.
Qed.

Lemma no_dot_noncorrupt : ~ In extsep ("_noncorrupt" : str).
Proof.
  simpl. intros H.
  repeat (destruct H as [H | H]; [discriminate|]). exact H.
Qed.

Lemma no_sep_fixed_word :
  ~ In sep ("fixed" : str) /\ ~ In extsep ("fixed" : str).
Proof.
  split; simpl; intros H;
    repeat (destruct H as [H | H]; [discriminate|]); exact H.
Qed.

End MoreOutputFacts.

(** Property X1: video_repair.py and 1.py keep the extension of the
    input: for every input path the extension of the output path, as
    [splitext] reads it, is the extension of the input path, and the
    suffix [_noncorrupt] ends the stem. *)
Theorem noncorrupt_keeps_extension (input_path : str) :
  snd (splitext (VideoRepair.output_path input_path))
    = snd (splitext input_path)
  /\ snd (splitext (Script1.output_path input_path))
    = snd (splitext input_path)
  /\ exists stem,
       fst (splitext (VideoRepair.output_path input_path))
       = stem ++ "_noncorrupt".
Proof.
  change (Script1.output_path input_path)
    with (VideoRepair.output_path input_path).
  rewrite VideoRepair_output, (splitext_ext_basename input_path).
  set (b := basename input_path).
  destruct (join_dirname_parts input_path
              (fst (splitext b) ++ "_noncorrupt" ++ snd (splitext b)))
    as (X & -> & HX & _).
  { apply suffixed_no_sep; [apply basename_no_sep | apply no_sep_noncorrupt]. }
  rewrite splitext_suffixed by
    first [ assumption | apply basename_no_sep
          | apply no_sep_noncorrupt | apply no_dot_noncorrupt ].
  repeat split. exists (X ++ fst (splitext b)).
  simpl fst. rewrite <- app_assoc. reflexivity.
Qed.

(** Property X2: 4.py keeps the extension of an input that has one: the
    extension of the output path is that of the input, and [.fixed] ends
    the stem. *)
Theorem fixed_keeps_extension (corrupt_path : str) :
  snd (splitext corrupt_path) <> [] ->
  snd (splitext (Script4.output_path corrupt_path))
    = snd (splitext corrupt_path)
  /\ exists stem,
       fst (splitext (Script4.output_path corrupt_path)) = stem ++ ".fixed".
Proof.
  rewrite (splitext_ext_basename corrupt_path), Script4_output.
  set (b := basename corrupt_path). intros Hext.
  destruct (join_dirname_parts corrupt_path
              (fst (splitext b) ++ ".fixed" ++ snd (splitext b)))
    as (X & -> & HX & _).
  { apply suffixed_no_sep; [apply basename_no_sep | apply no_sep_fixed]. }
  destruct (splitext_name_cases b (basename_no_sep corrupt_path))
    as [E | (pre & suf & c & _ & Hdot & Hp & Hs & Hc & Hne & E)];
    rewrite E in *; cbv beta iota delta [fst snd] in *; [congruence|].
  rewrite (app_assoc pre).
  rewrite (splitext_known X (pre ++ ".fixed") suf c); auto.
  - split; [reflexivity|]. exists (X ++ pre). simpl fst.
    rewrite <- app_assoc. reflexivity.
  - apply not_in_app; [assumption | apply no_sep_fixed].
  - apply in_or_app. left. exact Hc.
Qed.

Lemma fixed_keeps_extension_witness :
  snd (splitext clip) <> []
  /\ snd (splitext (Script4.output_path clip)) = (".mp4" : str).
Proof.
  split; [vm_compute; discriminate|].
  destruct (fixed_keeps_extension clip) as [H _];
    [vm_compute; discriminate|].
  rewrite H. reflexivity.
Defined.

(** Property X3: 4.py gives an input without extension the extension
    [.fixed]: when the base name of the input has no extension and has a
    character other than a dot, [splitext] of the output path ends in
    [.fixed]. *)
Theorem fixed_becomes_extension (corrupt_path : str) (c : ascii) :
  snd (splitext corrupt_path) = [] ->
  In c (basename corrupt_path) -> c <> extsep ->
  splitext (Script4.output_path corrupt_path)
  = (join (dirname corrupt_path) (basename corrupt_path), ".fixed" : str).
Proof.
  rewrite (splitext_ext_basename corrupt_path), Script4_output.
  intros Hext Hc Hne.
  pose proof (splitext_concat (basename corrupt_path)) as Hcat.
  rewrite Hext, app_nil_r in Hcat. rewrite Hext, Hcat, app_nil_r.
  pose proof (basename_no_sep corrupt_path) as Hb.
  destruct (join_prefix corrupt_path) as (X & HX & HJ).
  rewrite !HJ by
    first [ assumption | apply not_in_app; [assumption | apply no_sep_fixed] ].
  apply (splitext_known X (basename corrupt_path) "fixed" c);
    auto; apply no_sep_fixed_word.
Qed.

Lemma fixed_becomes_extension_witness :
  (snd (splitext ("/videos/clip" : str)) = []
   /\ In "c"%char (basename "/videos/clip")
   /\ "c"%char <> extsep)
  /\ Script4.output_path "/videos/clip" = ("/videos/clip.fixed" : str)
  /\ splitext (Script4.output_path "/videos/clip")
     = ("/videos/clip" : str, ".fixed" : str).
Proof.
  split; [repeat split; [vm_compute; tauto | discriminate]|].
  split; [reflexivity|].
  rewrite (fixed_becomes_extension "/videos/clip" "c"%char);
    [reflexivity | reflexivity | vm_compute; tauto | discriminate].
Defined.

(** Property X4: which scripts write to the same file. 1.py derives the
    output path of video_repair.py for every input; 3.py derives it
    exactly when the extension of the input is [.mp4]; the output path
    of 4.py is never that of another script. *)
Theorem output_path_collisions (input_path : str) :
  Script1.output_path input_path = VideoRepair.output_path input_path
  /\ (Script3.output_path input_path = VideoRepair.output_path input_path
      <-> snd (splitext input_path) = (".mp4" : str))
  /\ Script4.output_path input_path <> VideoRepair.output_path input_path
  /\ Script4.output_path input_path <> Script3.output_path input_path.
Proof.
  split; [reflexivity|].
  rewrite VideoRepair_output, Script3_output, Script4_output.
  rewrite (splitext_ext_basename input_path).
  pose proof (basename_no_sep input_path) as Hb.
  set (b := basename input_path) in *.
  assert (~ In sep (fst (splitext b) ++ "_noncorrupt" ++ snd (splitext b)))
    as H1 by (apply suffixed_no_sep; [assumption | apply no_sep_noncorrupt]).
  assert (~ In sep (fst (splitext b) ++ "_noncorrupt.mp4"))
    as H3 by (apply forced_no_sep; [assumption | apply no_sep_noncorrupt_mp4]).
  assert (~ In sep (fst (splitext b) ++ ".fixed" ++ snd (splitext b)))
    as H4 by (apply suffixed_no_sep; [assumption | apply no_sep_fixed]).
  split; [split|split].
  - intros E. apply join_dirname_inj in E; [|assumption|assumption].
    apply app_inv_head in E.
    change ("_noncorrupt.mp4" : str)
      with (("_noncorrupt" : str) ++ (".mp4" : str)) in E.
    apply app_inv_head in E. symmetry. exact E.
  - intros ->. reflexivity.
  - intros E. apply join_dirname_inj in E; [|assumption|assumption].
    apply app_inv_head in E. discriminate E.
  - intros E. apply join_dirname_inj in E; [|assumption|assumption].
    apply app_inv_head in E. discriminate E.
Qed.

(** Property X5: the output paths of the re-encoding scripts 1.py and
    3.py never equal the input path, although 3.py replaces the
    extension. *)
Theorem reencode_output_never_input (input_path : str) :
  Script1.output_path input_path <> input_path
  /\ Script3.output_path input_path <> input_path.
Proof.
  split; [apply VideoRepair_output_neq | apply Script3_output_neq].
Qed.

(** Property X6: the file name of the output. The base name of each
    output path is the stem of the input name, the suffix of the script
    and the extension (of the input, or [.mp4] in 3.py); and joining the
    directory and the base name of an output path gives the output path
    back. *)
Theorem output_file_name (input_path : str) :
  let b := basename input_path in
  fst (splitext b) ++ snd (splitext b) = b
  /\ basename (VideoRepair.output_path input_path)
     = fst (splitext b) ++ "_noncorrupt" ++ snd (splitext b)
  /\ basename (Script3.output_path input_path)
     = fst (splitext b) ++ "_noncorrupt.mp4"
  /\ basename (Script4.output_path input_path)
     = fst (splitext b) ++ ".fixed" ++ snd (splitext b)
  /\ join (dirname (VideoRepair.output_path input_path))
          (basename (VideoRepair.output_path input_path))
     = VideoRepair.output_path input_path
  /\ join (dirname (Script3.output_path input_path))
          (basename (Script3.output_path input_path))
     = Script3.output_path input_path
  /\ join (dirname (Script4.output_path input_path))
          (basename (Script4.output_path input_path))
     = Script4.output_path input_path.
Proof.
  intros b. split; [apply splitext_concat|].
  rewrite VideoRepair_output, Script3_output, Script4_output. fold b.
  pose proof (basename_no_sep input_path) as Hb. fold b in Hb.
  assert (~ In sep (fst (splitext b) ++ "_noncorrupt" ++ snd (splitext b)))
    as H1 by (apply suffixed_no_sep; [assumption | apply no_sep_noncorrupt]).
  assert (~ In sep (fst (splitext b) ++ "_noncorrupt.mp4"))
    as H3 by (apply forced_no_sep; [assumption | apply no_sep_noncorrupt_mp4]).
  assert (~ In sep (fst (splitext b) ++ ".fixed" ++ snd (splitext b)))
    as H4 by (apply suffixed_no_sep; [assumption | apply no_sep_fixed]).
  rewrite !dirname_of_join, !basename_of_join by assumption.
  repeat split.
Qed.

(** ** More on the runs *)

Section MoreRuns.

Lemma spawn_ffmpeg (w : World) (args : list str) :
  spawn w (("ffmpeg" : str) :: args) = FileNotFoundError
  <-> on_path w "ffmpeg" = false.
Proof.
  unfold spawn. destruct (on_path w _); [|split; reflexivity].
  destruct (tool w _); split; discriminate.
Qed.

Lemma relay_invocations (l : list str) : invocations (map WriteStderr l) = [].
Proof. induction l; simpl; auto. Qed.

Lemma relay_stdout (l : list str) : stdout_written (map WriteStderr l) = [].
Proof. induction l; simpl; auto. Qed.

Lemma relay_printed (l : list str) : printed (map WriteStderr l) = [].
Proof. induction l; simpl; auto. Qed.

Lemma relay_stderr (l : list str) : stderr_written (map WriteStderr l) = l.
Proof. induction l; simpl; congruence. Qed.

Lemma Script1_outcome (w : World) (p : str) :
  fst (Script1.repair_video w p)
  = if negb (path_exists (fs w) p) then InputNotFound
    else match spawn w (Script1.command p) with
         | Process c =>
             if returncode c =? 0 then Succeeded else Failed (returncode c)
         | FileNotFoundError => ToolNotFound
         | Exception e => UnexpectedError e
         | Interrupted _ e => UnexpectedError e
         end.
Proof.
  unfold Script1.repair_video.
  destruct (negb (path_exists (fs w) p)); [reflexivity|].
  destruct (spawn w (Script1.command p)) as [c| |e|r e]; try reflexivity.
  destruct (returncode c =? 0); reflexivity.
Qed.

Lemma Script3_outcome (w : World) (p : str) :
  fst (Script3.repair_video w p)
  = if negb (path_exists (fs w) p) then InputNotFound
    else match spawn w (Script3.command p) with
         | Process c =>
             if returncode c =? 0 then Succeeded else Failed (returncode c)
         | FileNotFoundError => ToolNotFound
         | Exception e => UnexpectedError e
         | Interrupted _ e => UnexpectedError e
         end.
Proof.
  unfold Script3.repair_video.
  destruct (negb (path_exists (fs w) p)); [reflexivity|].
  destruct (spawn w (Script3.command p)) as [c| |e|r e]; try reflexivity.
  destruct (returncode c =? 0); reflexivity.
Qed.

(** The two early outcomes of a run whose later outcomes are [k]. *)
Lemma early_outcomes (w : World) (p : str) (args : list str)
    (k : Completed -> Outcome) :
  (forall c, k c <> InputNotFound /\ k c <> ToolNotFound) ->
  let o := if negb (path_exists (fs w) p) then InputNotFound
           else match spawn w (("ffmpeg" : str) :: args) with
                | Process c => k c
                | FileNotFoundError => ToolNotFound
                | Exception e => UnexpectedError e
                | Interrupted _ e => UnexpectedError e
                end in
  (o = InputNotFound <-> path_exists (fs w) p = false)
  /\ (o = ToolNotFound
      <-> path_exists (fs w) p = true /\ on_path w "ffmpeg" = false).
Proof.
  intros Hk o. subst o.
  rewrite <- (spawn_ffmpeg w args).
  destruct (path_exists (fs w) p); simpl negb; cbv iota.
  - destruct (spawn w (("ffmpeg" : str) :: args)) as [c| |e|r e].
    + destruct (Hk c) as [H1 H2].
      repeat split; try discriminate; try tauto. intros [_ H]. discriminate.
    + repeat split; try discriminate; auto.
    + repeat split; try discriminate. intros [_ H]. discriminate.
    + repeat split; try discriminate. intros [_ H]. discriminate.
  - repeat split; try discriminate. intros [H _]. discriminate.
Qed.

Lemma by_code_late (c : Completed) :
  (if returncode c =? 0 then Succeeded else Failed (returncode c))
    <> InputNotFound
  /\ (if returncode c =? 0 then Succeeded else Failed (returncode c))
    <> ToolNotFound.
Proof. destruct (returncode c =? 0); split; discriminate. Qed.

Lemma by_code_and_file_late (b : bool) (c : Completed) :
  (if (returncode c =? 0) && b then Succeeded else Failed (returncode c))
    <> InputNotFound
  /\ (if (returncode c =? 0) && b then Succeeded else Failed (returncode c))
    <> ToolNotFound.
Proof. destruct ((returncode c =? 0) && b); split; discriminate. Qed.

End MoreRuns.

(** Case analysis on a run of [repair_video]: the existence test, the
    launch, the exit code. *)
Ltac run_cases w p cmd :=
  destruct (path_exists (fs w) p) eqn:Hexists; simpl negb; cbv iota;
  [ destruct (spawn w cmd) as [process | | e | relayed e] eqn:Hspawn;
    [ destruct (returncode process =? 0) eqn:Hcode | | | ]
  | ].

(** Reading a trace built by appending. *)
Ltac read_trace :=
  unfold invocations, stderr_written, stdout_written, printed;
  simpl; repeat rewrite flat_map_app; simpl;
  fold invocations stderr_written stdout_written printed;
  rewrite ?relay_invocations, ?relay_stdout, ?relay_printed, ?relay_stderr,
    ?app_nil_r; simpl.

(** Property X7: 1.py and 3.py classify a finished child by its exit
    code alone: Succeeded exactly when the code is zero, Failed with the
    code otherwise, whatever is at the output path. *)
Theorem reencode_outcome
    (w : World) (input_path : str) (c1 c3 : Completed) :
  path_exists (fs w) input_path = true ->
  spawn w (Script1.command input_path) = Process c1 ->
  spawn w (Script3.command input_path) = Process c3 ->
  (fst (Script1.repair_video w input_path) = Succeeded <-> returncode c1 = 0)
  /\ (fst (Script1.repair_video w input_path) = Succeeded
      \/ fst (Script1.repair_video w input_path) = Failed (returncode c1))
  /\ (fst (Script3.repair_video w input_path) = Succeeded
      <-> returncode c3 = 0)
  /\ (fst (Script3.repair_video w input_path) = Succeeded
      \/ fst (Script3.repair_video w input_path) = Failed (returncode c3)).
Proof.
  intros Hin H1 H3.
  rewrite Script1_outcome, Script3_outcome, Hin, H1, H3.
  simpl negb. cbv iota.
  destruct (Z.eqb_spec (returncode c1) 0) as [E1 | E1];
    destruct (Z.eqb_spec (returncode c3) 0) as [E3 | E3];
    intuition (auto; try discriminate).
Qed.

Lemma reencode_outcome_witness :
  (path_exists (fs world_no_output) clip = true
   /\ spawn world_no_output (Script1.command clip) = Process done_nothing
   /\ spawn world_no_output (Script3.command clip) = Process done_nothing)
  /\ fs_after done_nothing (Script3.output_path clip) = None
  /\ fst (Script1.repair_video world_no_output clip) = Succeeded
  /\ fst (Script3.repair_video world_no_output clip) = Succeeded.
Proof.
  split; [repeat split; reflexivity|]. split; [reflexivity|].
  destruct (reencode_outcome world_no_output clip done_nothing done_nothing)
    as (H1 & _ & H3 & _); try reflexivity.
  split; [apply H1 | apply H3]; reflexivity.
Defined.

(** Property X8: for an input path at which nothing exists, 1.py and
    3.py print the not-found message and stop: nothing else is printed
    and the tool is not called. *)
Theorem reencode_missing_input (w : World) (input_path : str) :
  path_exists (fs w) input_path = false ->
  Script1.repair_video w input_path
    = (InputNotFound, [Print (MsgNotFound input_path)])
  /\ Script3.repair_video w input_path
    = (InputNotFound, [Print (MsgNotFound input_path)]).
Proof.
  intros H. unfold Script1.repair_video, Script3.repair_video.
  rewrite H. split; reflexivity.
Qed.

Lemma reencode_missing_input_witness :
  path_exists (fs world_empty) clip = false
  /\ invocations (snd (Script3.repair_video world_empty clip)) = [].
Proof.
  split; [reflexivity|].
  destruct (reencode_missing_input world_empty clip) as [_ H];
    [reflexivity|].
  rewrite H. reflexivity.
Defined.

(** Property X9: a run reports InputNotFound exactly when nothing exists
    at the input path, in each of the four scripts. *)
Theorem input_not_found_iff (w : World) (input_path : str) :
  (fst (VideoRepair.repair_video w input_path) = InputNotFound
   <-> path_exists (fs w) input_path = false)
  /\ (fst (Script1.repair_video w input_path) = InputNotFound
      <-> path_exists (fs w) input_path = false)
  /\ (fst (Script3.repair_video w input_path) = InputNotFound
      <-> path_exists (fs w) input_path = false)
  /\ (fst (Script4.repair_video_ffmpeg w input_path) = InputNotFound
      <-> path_exists (fs w) input_path = false).
Proof.
  rewrite VideoRepair_outcome, Script1_outcome, Script3_outcome,
    Script4_outcome.
  repeat split;
    first
      [ apply (early_outcomes w input_path
                 (tl (VideoRepair.command input_path)) _ by_code_late)
      | apply (early_outcomes w input_path
                 (tl (Script1.command input_path)) _ by_code_late)
      | apply (early_outcomes w input_path
                 (tl (Script3.command input_path)) _ by_code_late)
      | apply (early_outcomes w input_path
                 (tl (Script4.command input_path)) _
                 (fun c => by_code_and_file_late _ c)) ].
Qed.

(** Property X10: a run reports ToolNotFound exactly when the input
    exists and [ffmpeg] is not found on the search path, in each of the
    four scripts; in 4.py the size test of the output file never leads
    there. *)
Theorem tool_not_found_iff (w : World) (input_path : str) :
  (fst (VideoRepair.repair_video w input_path) = ToolNotFound
   <-> path_exists (fs w) input_path = true /\ on_path w "ffmpeg" = false)
  /\ (fst (Script1.repair_video w input_path) = ToolNotFound
      <-> path_exists (fs w) input_path = true /\ on_path w "ffmpeg" = false)
  /\ (fst (Script3.repair_video w input_path) = ToolNotFound
      <-> path_exists (fs w) input_path = true /\ on_path w "ffmpeg" = false)
  /\ (fst (Script4.repair_video_ffmpeg w input_path) = ToolNotFound
      <-> path_exists (fs w) input_path = true /\ on_path w "ffmpeg" = false).
Proof.
  rewrite VideoRepair_outcome, Script1_outcome, Script3_outcome,
    Script4_outcome.
  split; [|split; [|split]].
  - apply (early_outcomes w input_path
             (tl (VideoRepair.command input_path)) _ by_code_late).
  - apply (early_outcomes w input_path
             (tl (Script1.command input_path)) _ by_code_late).
  - apply (early_outcomes w input_path
             (tl (Script3.command input_path)) _ by_code_late).
  - apply (early_outcomes w input_path
             (tl (Script4.command input_path)) _
             (fun c => by_code_and_file_late _ c)).
Qed.

(** ** What a run does *)

Section Traces.

Lemma VideoRepair_invocations (w : World) (p : str) :
  invocations (snd (VideoRepair.repair_video w p))
  = if path_exists (fs w) p then [VideoRepair.command p] else [].
Proof.
  unfold VideoRepair.repair_video.
  run_cases w p (VideoRepair.command p); read_trace; reflexivity.
Qed.

Lemma Script1_invocations (w : World) (p : str) :
  invocations (snd (Script1.repair_video w p))
  = if path_exists (fs w) p then [Script1.command p] else [].
Proof.
  unfold Script1.repair_video.
  run_cases w p (Script1.command p); read_trace; reflexivity.
Qed.

Lemma Script3_invocations (w : World) (p : str) :
  invocations (snd (Script3.repair_video w p))
  = if path_exists (fs w) p then [Script3.command p] else [].
Proof.
  unfold Script3.repair_video.
  run_cases w p (Script3.command p); read_trace; reflexivity.
Qed.

Lemma Script4_invocations (w : World) (p : str) :
  invocations (snd (Script4.repair_video_ffmpeg w p))
  = if path_exists (fs w) p then [Script4.command p] else [].
Proof.
  unfold Script4.repair_video_ffmpeg. rewrite Script4_guard.
  run_cases w p (Script4.command p); try (read_trace; reflexivity).
  rewrite exists_and_nonempty_total.
  destruct (match fs_after process (Script4.output_path p) with
            | Some size => size >? 0
            | None => false
            end); read_trace; reflexivity.
Qed.

End Traces.

(** Property X11: no retries and no launch without an input: each of the
    four scripts calls the tool exactly once, with its own argument
    list, when the input exists, and not at all otherwise. *)
Theorem tool_called_once_iff_input_exists (w : World) (input_path : str) :
  invocations (snd (VideoRepair.repair_video w input_path))
    = (if path_exists (fs w) input_path
       then [VideoRepair.command input_path] else [])
  /\ invocations (snd (Script1.repair_video w input_path))
    = (if path_exists (fs w) input_path
       then [Script1.command input_path] else [])
  /\ invocations (snd (Script3.repair_video w input_path))
    = (if path_exists (fs w) input_path
       then [Script3.command input_path] else [])
  /\ invocations (snd (Script4.repair_video_ffmpeg w input_path))
    = (if path_exists (fs w) input_path
       then [Script4.command input_path] else []).
Proof.
  auto using VideoRepair_invocations, Script1_invocations,
    Script3_invocations, Script4_invocations.
Qed.

(** Property X12: what reaches the console from the child.
    video_repair.py writes the lines of the child's standard error one
    by one, in order: all of them when the child runs to its end, and
    the lines read so far when reading fails on the way; it never writes
    the child's standard output.  4.py writes the child's standard
    output once and then its whole standard error once, and nothing
    when reading fails.  A run without a child writes neither. *)
Theorem child_output_relay (w : World) (input_path : str) :
  stderr_written (snd (VideoRepair.repair_video w input_path))
    = (if path_exists (fs w) input_path
       then match spawn w (VideoRepair.command input_path) with
            | Process c => stderr c
            | Interrupted relayed _ => relayed
            | FileNotFoundError | Exception _ => []
            end
       else [])
  /\ stdout_written (snd (VideoRepair.repair_video w input_path)) = []
  /\ stderr_written (snd (Script4.repair_video_ffmpeg w input_path))
    = (if path_exists (fs w) input_path
       then match spawn w (Script4.command input_path) with
            | Process c => [concat (stderr c)]
            | FileNotFoundError | Exception _ | Interrupted _ _ => []
            end
       else [])
  /\ stdout_written (snd (Script4.repair_video_ffmpeg w input_path))
    = (if path_exists (fs w) input_path
       then match spawn w (Script4.command input_path) with
            | Process c => [stdout c]
            | FileNotFoundError | Exception _ | Interrupted _ _ => []
            end
       else []).
Proof.
  split; [|split; [|split]].
  - unfold VideoRepair.repair_video.
    run_cases w input_path (VideoRepair.command input_path);
      read_trace; reflexivity.
  - unfold VideoRepair.repair_video.
    run_cases w input_path (VideoRepair.command input_path);
      read_trace; reflexivity.
  - unfold Script4.repair_video_ffmpeg. rewrite Script4_guard.
    run_cases w input_path (Script4.command input_path);
      try (read_trace; reflexivity).
    rewrite exists_and_nonempty_total.
    destruct (match fs_after process (Script4.output_path input_path) with
              | Some size => size >? 0
              | None => false
              end); read_trace; reflexivity.
  - unfold Script4.repair_video_ffmpeg. rewrite Script4_guard.
    run_cases w input_path (Script4.command input_path);
      try (read_trace; reflexivity).
    rewrite exists_and_nonempty_total.
    destruct (match fs_after process (Script4.output_path input_path) with
              | Some size => size >? 0
              | None => false
              end); read_trace; reflexivity.
Qed.

(** Property X13: the messages a run prints are those of its outcome:
    the not-found message alone, or the plan followed by exactly one
    result message, in each of the four scripts. *)
Theorem printed_matches_outcome (w : World) (input_path : str) :
  printed (snd (VideoRepair.repair_video w input_path))
    = banner input_path (VideoRepair.output_path input_path)
        (fst (VideoRepair.repair_video w input_path))
  /\ printed (snd (Script1.repair_video w input_path))
    = banner input_path (Script1.output_path input_path)
        (fst (Script1.repair_video w input_path))
  /\ printed (snd (Script3.repair_video w input_path))
    = banner input_path (Script3.output_path input_path)
        (fst (Script3.repair_video w input_path))
  /\ printed (snd (Script4.repair_video_ffmpeg w input_path))
    = banner input_path (Script4.output_path input_path)
        (fst (Script4.repair_video_ffmpeg w input_path)).
Proof.
  split; [|split; [|split]].
  - unfold VideoRepair.repair_video.
    run_cases w input_path (VideoRepair.command input_path);
      read_trace; reflexivity.
  - unfold Script1.repair_video.
    run_cases w input_path (Script1.command input_path);
      read_trace; reflexivity.
  - unfold Script3.repair_video.
    run_cases w input_path (Script3.command input_path);
      read_trace; reflexivity.
  - unfold Script4.repair_video_ffmpeg. rewrite Script4_guard.
    run_cases w input_path (Script4.command input_path);
      try (read_trace; reflexivity).
    rewrite exists_and_nonempty_total.
    destruct (match fs_after process (Script4.output_path input_path) with
              | Some size => size >? 0
              | None => false
              end); read_trace; reflexivity.
Qed.

(** ** More on the clean-up of the typed path *)

Section MoreCleanup.

Lemma filter_all (f : ascii -> bool) (l : str) :
  (forall c, In c l -> f c = true) -> filter f l = l.
Proof.
  induction l as [|x l IH]; simpl; intros H; [reflexivity|].
  rewrite (H x) by auto. rewrite IH by auto. reflexivity.
Qed.

Lemma filter_none (f : ascii -> bool) (l : str) :
  filter f l = [] <-> forallb (fun c => negb (f c)) l = true.
Proof.
  induction l as [|x l IH]; simpl; [tauto|].
  destruct (f x); simpl; [split; discriminate | exact IH].
Qed.

Lemma unquoted_no_quote (s : str) (c : ascii) :
  In c (strip_and_unquote s) -> is_quote c = false.
Proof.
  unfold strip_and_unquote. rewrite unquote_filter.
  intros H. apply filter_In in H. destruct H as [_ H].
  destruct (is_quote c); [discriminate | reflexivity].
Qed.

Lemma dropwhile_keeps (f : ascii -> bool) (s : str) :
  match s with [] => True | c :: _ => f c = false end ->
  dropwhile f s = s.
Proof. destruct s as [|c s]; simpl; [reflexivity | intros ->; reflexivity]. Qed.

(** [strip] leaves a string alone that neither starts nor ends with
    white space. *)
Lemma strip_fixed (s : str) :
  match s with [] => True | c :: _ => isspace c = false end ->
  match rev s with [] => True | c :: _ => isspace c = false end ->
  strip s = s.
Proof.
  intros Hh Ht. unfold strip, lstrip_by, rstrip_by.
  rewrite (dropwhile_keeps isspace (rev s) Ht), rev_involutive.
  apply dropwhile_keeps. exact Hh.
Qed.

Lemma strip_strip (s : str) : strip (strip s) = strip s.
Proof.
  destruct (strip_parts s) as (pre & suf & _ & _ & _ & Hh & Ht).
  apply strip_fixed; assumption.
Qed.

Lemma strip_incl (s : str) (c : ascii) : In c (strip s) -> In c s.
Proof.
  destruct (strip_parts s) as (pre & suf & E & _).
  intros H. rewrite E. apply in_or_app. right. apply in_or_app. left. exact H.
Qed.

(** A second clean-up only strips. *)
Lemma second_cleanup (s : str) :
  strip_and_unquote (strip_and_unquote s) = strip (strip_and_unquote s).
Proof.
  unfold strip_and_unquote at 1. rewrite unquote_filter.
  apply filter_all. intros c H. apply strip_incl in H.
  rewrite (unquoted_no_quote s c H). reflexivity.
Qed.

Lemma unquoted_identity (s : str) :
  (forall c, In c s -> is_quote c = false) ->
  match s with [] => True | c :: _ => isspace c = false end ->
  match rev s with [] => True | c :: _ => isspace c = false end ->
  strip_and_unquote s = s.
Proof.
  intros Hq Hh Ht. unfold strip_and_unquote.
  rewrite unquote_filter, (strip_fixed s Hh Ht).
  apply filter_all. intros c H. rewrite (Hq c H). reflexivity.
Qed.

Lemma cleanup_empty_iff (s : str) :
  truthy (strip_and_unquote s) = negb (forallb is_quote (strip s)).
Proof.
  unfold strip_and_unquote. rewrite unquote_filter.
  pose proof (filter_none (fun c => negb (is_quote c)) (strip s)) as H.
  assert (forall l : str,
             forallb (fun c => negb (negb (is_quote c))) l
             = forallb is_quote l) as E.
  { induction l as [|x l IH]; simpl; [reflexivity|].
    rewrite negb_involutive, IH. reflexivity. }
  rewrite E in H.
  destruct (filter _ (strip s)) as [|x l]; simpl.
  - destruct H as [H _]. rewrite (H eq_refl). reflexivity.
  - destruct (forallb is_quote (strip s)); [|reflexivity].
    destruct H as [_ H]. discriminate (H eq_refl).
Qed.

End MoreCleanup.

(** Property X14: the path handed on never holds a quote character, so a
    file whose path has an apostrophe or a double quote in it cannot be
    named to any of the four scripts. *)
Theorem cleaned_path_has_no_quote (typed : str) (argv : list str) :
  existsb is_quote (VideoRepair.input_video_path typed) = false
  /\ existsb is_quote (Script1.input_video_path typed) = false
  /\ existsb is_quote (Script3.input_video_path typed) = false
  /\ existsb is_quote (Script4.corrupt_path argv typed) = false.
Proof.
  assert (forall s, existsb is_quote (strip_and_unquote s) = false) as H.
  { intros s. destruct (existsb is_quote (strip_and_unquote s)) eqn:E;
      [|reflexivity].
    apply existsb_exists in E. destruct E as (c & Hc & Hq).
    rewrite (unquoted_no_quote s c Hc) in Hq. discriminate. }
  repeat split; apply H.
Qed.

(** Property X15: a path without quote characters that neither starts
    nor ends with white space is handed on unchanged, white space inside
    it included, whether typed at the prompt or given as the first
    command-line argument of 4.py. *)
Theorem clean_path_unchanged (path : str) :
  (forall c, In c path -> is_quote c = false) ->
  match path with [] => True | c :: _ => isspace c = false end ->
  match rev path with [] => True | c :: _ => isspace c = false end ->
  VideoRepair.input_video_path path = path
  /\ Script1.input_video_path path = path
  /\ Script3.input_video_path path = path
  /\ (forall program, Script4.corrupt_path [program] path = path)
  /\ (forall program rest typed,
        Script4.corrupt_path (program :: path :: rest) typed = path).
Proof.
  intros Hq Hh Ht.
  pose proof (unquoted_identity path Hq Hh Ht) as E.
  unfold VideoRepair.input_video_path, Script1.input_video_path,
    Script3.input_video_path, Script4.corrupt_path.
  rewrite !E. repeat split.
Qed.

Lemma clean_path_unchanged_witness :
  VideoRepair.input_video_path "/my videos/clip 1.mp4"
    = ("/my videos/clip 1.mp4" : str)
  /\ Script4.corrupt_path ["4.py" : str; "/my videos/clip 1.mp4" : str] []
    = ("/my videos/clip 1.mp4" : str).
Proof.
  destruct (clean_path_unchanged "/my videos/clip 1.mp4")
    as (H1 & _ & _ & _ & H4).
  - intros c H. simpl in H.
    repeat (destruct H as [H | H]; [subst c; reflexivity|]). destruct H.
  - reflexivity.
  - reflexivity.
  - split; [exact H1 | apply H4].
Defined.

(** Property X16: the clean-up is not idempotent, but a second pass only
    strips and a third changes nothing. So the path 4.py takes from the
    command line, cleaned twice, has no quote and no white space at
    either end, while a path typed at the prompt, cleaned once, may keep
    white space that stood inside quotes. *)
Theorem cleanup_settles_after_two (s program : str) (rest : list str)
    (typed : str) :
  strip_and_unquote (strip_and_unquote (strip_and_unquote s))
    = strip_and_unquote (strip_and_unquote s)
  /\ Script4.corrupt_path (program :: s :: rest) typed
     = strip (strip_and_unquote s)
  /\ strip (Script4.corrupt_path (program :: s :: rest) typed)
     = Script4.corrupt_path (program :: s :: rest) typed
  /\ (exists line : str,
        VideoRepair.input_video_path line
        <> strip (VideoRepair.input_video_path line)).
Proof.
  assert (Script4.corrupt_path (program :: s :: rest) typed
          = strip (strip_and_unquote s)) as E
    by (unfold Script4.corrupt_path; apply second_cleanup).
  split; [|split; [exact E | split]].
  - rewrite (second_cleanup (strip_and_unquote s)), second_cleanup.
    apply strip_strip.
  - rewrite E. apply strip_strip.
  - exists ("' clip.mp4 '" : str). vm_compute. discriminate.
Qed.

(** Property X17: when [main] stops before the orchestrator. At the
    prompt, the scripts report that no path was given exactly when the
    line, stripped of surrounding white space, holds nothing but quote
    characters; otherwise they run the orchestrator on the cleaned path. *)
Theorem main_without_path (w : World) (typed program : str) :
  VideoRepair.main w typed
    = (if forallb is_quote (strip typed)
       then (None, [Print MsgTitle; Print MsgNoPath])
       else (Some (fst (VideoRepair.repair_video w
                          (VideoRepair.input_video_path typed))),
             Print MsgTitle
               :: snd (VideoRepair.repair_video w
                         (VideoRepair.input_video_path typed))))
  /\ Script1.main w typed
    = (if forallb is_quote (strip typed)
       then (None, [Print MsgTitle; Print MsgNoPath])
       else (Some (fst (Script1.repair_video w
                          (Script1.input_video_path typed))),
             Print MsgTitle
               :: snd (Script1.repair_video w
                         (Script1.input_video_path typed))))
  /\ Script3.main w typed
    = (if forallb is_quote (strip typed)
       then (None, [Print MsgTitle; Print MsgNoPath])
       else (Some (fst (Script3.repair_video w
                          (Script3.input_video_path typed))),
             Print MsgTitle
               :: snd (Script3.repair_video w
                         (Script3.input_video_path typed))))
  /\ Script4.main w [program] typed
    = (if forallb is_quote (strip typed)
       then (None, [Print MsgTitle; Print MsgNoPath])
       else (Some (fst (Script4.repair_video_ffmpeg w
                          (Script4.corrupt_path [program] typed))),
             Print MsgTitle
               :: snd (Script4.repair_video_ffmpeg w
                         (Script4.corrupt_path [program] typed)))).
Proof.
  unfold VideoRepair.main, Script1.main, Script3.main, Script4.main.
  unfold VideoRepair.input_video_path, Script1.input_video_path,
    Script3.input_video_path, Script4.corrupt_path.
  rewrite cleanup_empty_iff.
  destruct (forallb is_quote (strip typed)); simpl negb; cbv iota.
  - repeat split.
  - destruct (VideoRepair.repair_video w _), (Script1.repair_video w _),
      (Script3.repair_video w _), (Script4.repair_video_ffmpeg w _).
    repeat split.
Qed.

(** Property X18: a whole program run launches the tool at most once,
    and only for a non-empty cleaned path at which something exists; the
    command is the one built from the cleaned path. *)
Theorem main_launches (w : World) (typed : str) (argv : list str) :
  invocations (snd (VideoRepair.main w typed))
    = (let p := VideoRepair.input_video_path typed in
       if truthy p && path_exists (fs w) p
       then [VideoRepair.command p] else [])
  /\ invocations (snd (Script1.main w typed))
    = (let p := Script1.input_video_path typed in
       if truthy p && path_exists (fs w) p
       then [Script1.command p] else [])
  /\ invocations (snd (Script3.main w typed))
    = (let p := Script3.input_video_path typed in
       if truthy p && path_exists (fs w) p
       then [Script3.command p] else [])
  /\ invocations (snd (Script4.main w argv typed))
    = (let p := Script4.corrupt_path argv typed in
       if truthy p && path_exists (fs w) p
       then [Script4.command p] else []).
Proof.
  cbv zeta. split; [|split; [|split]].
  - unfold VideoRepair.main.
    destruct (truthy (VideoRepair.input_video_path typed)); cbn [andb];
      [|reflexivity].
    rewrite <- VideoRepair_invocations.
    destruct (VideoRepair.repair_video w _); reflexivity.
  - unfold Script1.main.
    destruct (truthy (Script1.input_video_path typed)); cbn [andb];
      [|reflexivity].
    rewrite <- Script1_invocations.
    destruct (Script1.repair_video w _); reflexivity.
  - unfold Script3.main.
    destruct (truthy (Script3.input_video_path typed)); cbn [andb];
      [|reflexivity].
    rewrite <- Script3_invocations.
    destruct (Script3.repair_video w _); reflexivity.
  - unfold Script4.main.
    destruct (truthy (Script4.corrupt_path argv typed)); cbn [andb].
    + rewrite <- Script4_invocations.
      destruct (Script4.repair_video_ffmpeg w _).
      destruct argv as [|a [|b r]]; reflexivity.
    + destruct argv as [|a [|b r]]; reflexivity.
Qed.

(** Property X19: for every input path, the argument lists of the remux
    scripts video_repair.py and 4.py hold exactly one stream-copy
    directive and those of the re-encoding scripts 1.py and 3.py hold
    none, whatever the input path is called. *)
Theorem copy_directives_by_script (input_path : str) :
  copy_directives (VideoRepair.command input_path) = 1%nat
  /\ copy_directives (Script4.command input_path) = 1%nat
  /\ copy_directives (Script1.command input_path) = 0%nat
  /\ copy_directives (Script3.command input_path) = 0%nat.
Proof.
  unfold VideoRepair.command, Script4.command, Script1.command,
    Script3.command.
  cbn [copy_directives].
  destruct (is_codec_option input_path); repeat split.
Qed.

(** Property X20: a failure with exit code zero. video_repair.py, 1.py
    and 3.py never report Failed with code 0; 4.py does, exactly when
    the child exits with code zero and the output file is missing or
    empty at the end. *)
Theorem failed_with_code_zero (w : World) (input_path : str) :
  fst (VideoRepair.repair_video w input_path) <> Failed 0
  /\ fst (Script1.repair_video w input_path) <> Failed 0
  /\ fst (Script3.repair_video w input_path) <> Failed 0
  /\ (fst (Script4.repair_video_ffmpeg w input_path) = Failed 0
      <-> path_exists (fs w) input_path = true
          /\ exists c,
               spawn w (Script4.command input_path) = Process c
               /\ returncode c = 0
               /\ ~ output_written c (Script4.output_path input_path)).
Proof.
  rewrite VideoRepair_outcome, Script1_outcome, Script3_outcome,
    Script4_outcome.
  assert (forall s : Spawned,
            match s with
            | Process c =>
                if returncode c =? 0 then Succeeded else Failed (returncode c)
            | FileNotFoundError => ToolNotFound
            | Exception e => UnexpectedError e
            | Interrupted _ e => UnexpectedError e
            end <> Failed 0) as Hcode.
  { intros [c| |e|r e]; try discriminate.
    destruct (Z.eqb_spec (returncode c) 0) as [E | E]; [discriminate|].
    intros H. injection H as H. contradiction. }
  destruct (path_exists (fs w) input_path); simpl negb; cbv iota.
  - split; [apply Hcode|]. split; [apply Hcode|]. split; [apply Hcode|].
    unfold output_written.
    destruct (spawn w (Script4.command input_path)) as [c| |e|r e].
    + destruct (Z.eqb_spec (returncode c) 0) as [E | E]; simpl andb.
      * destruct (fs_after c (Script4.output_path input_path))
          as [size|] eqn:Hfile.
        -- destruct (size >? 0) eqn:Hsize.
           ++ split; [discriminate|].
              intros (_ & c' & Hc & _ & Hno). injection Hc as <-.
              exfalso. apply Hno. exists size. split; [assumption | lia].
           ++ split; [|rewrite E; reflexivity].
              intros _. split; [reflexivity|]. exists c.
              repeat split; auto.
              intros (size' & Hs & Hpos). rewrite Hfile in Hs.
              injection Hs as <-. lia.
        -- split; [|rewrite E; reflexivity].
           intros _. split; [reflexivity|]. exists c.
           repeat split; auto.
           intros (size' & Hs & _). rewrite Hfile in Hs. discriminate.
      * split.
        -- intros H. injection H as H. contradiction.
        -- intros (_ & c' & Hc & H0 & _). injection Hc as <-. contradiction.
    + split; [discriminate|]. intros (_ & c' & Hc & _). discriminate.
    + split; [discriminate|]. intros (_ & c' & Hc & _). discriminate.
    + split; [discriminate|]. intros (_ & c' & Hc & _). discriminate.
  - repeat split; try discriminate. intros [H _]. discriminate.
Qed.
